(** * Replay manager of optimus: admission, conflict validation, worker pool

    Shallow embedding of [job/replay_manager.go].  The pure part (the conflict
    validator) is embedded as list recursions that follow the Go loops and
    their early returns; the stateful part ([Manager.Replay], [Manager.Init],
    [NewManager]) is embedded with explicit state passing over a [Manager]
    record.  The collaborators the file reaches only through interfaces or
    through functions defined elsewhere in the repository (the replay spec
    repository, the UUID provider, [prepareTree], [TreeNode.GetAllNodes],
    [uuid.UUID.String]) are the fields of the class [Collaborators].

    The worker goroutines ([spawnServiceWorker]) are embedded twice: the body
    of one worker as a function of the requests it receives, and the pool as
    a step relation over the manager and the positions of its workers, with
    the close of the queue in [Close] as one of the steps.

    The second part embeds [createExternalTable] and [ensureExternalTable] of
    the BigQuery datastore in the same way, the service behind the class
    [BigQuery.Service]. *)

From Stdlib Require Import ZArith List Bool Lia.
From stdpp Require Import base option list strings gmap pretty.
Import ListNotations.

Local Open Scope Z_scope.
Local Open Scope string_scope.

(** ** Errors *)

(** Go [error] values.  The two sentinels are package-level variables that
    the code compares by identity ([err == store.ErrResourceNotFound]); every
    other error is a value built by [errors.New]. *)
Inductive error : Type :=
| ErrRequestQueueFull
| ErrResourceNotFound
| errors_New (msg : string).

#[global] Instance error_eq_dec : EqDecision error.
Proof. solve_decision. Defined.

(** A Go result pair [(A, error)]. *)
Inductive result (A : Type) : Type :=
| Ok (a : A)
| Err (e : error).
Arguments Ok {A} a.
Arguments Err {A} e.

(** ** Data model *)

(** [uuid.UUID] is a 16 byte array; it is kept as the 128-bit number those
    bytes spell.  [uuid_Nil] is the zero value of an unset field. *)
Definition UUID : Type := N.
Definition uuid_Nil : UUID := 0%N.

(** [time.Time].  Go's [==] on two values compares the wall reading, the
    monotonic reading and the location pointer; the three fields below are
    what that comparison can tell apart, so that [=] on [Time] is [==]:
    [unixNano] is the instant in nanoseconds on the Unix time line,
    [monotonic] the reading of the monotonic clock if the value carries one,
    [location] the [*Location] ([None] for the nil pointer, which is UTC; two
    pointers are equal when they are the same object).  Two values of one
    instant in two locations are different values. *)
Record Time : Type := mkTime {
  unixNano : Z;
  monotonic : option Z;
  location : option string
}.

#[global] Instance Time_eq_dec : EqDecision Time.
Proof. solve_decision. Defined.

(** The instant [seconds] after the Unix epoch as a value in UTC without
    monotonic reading, such as [time.Date] with [time.UTC] gives. *)
Definition utc (seconds : Z) : Time := mkTime (seconds * 1000000000) None None.

Record JobSpec : Type := mkJobSpec { Name : string }.

Record ProjectSpec : Type := mkProjectSpec { ProjectName : string }.

(** Modelled from the spec: the status constants
    ([models.ReplayStatusAccepted] and its siblings) are declared in package
    [models], not in [replay_manager.go]; the data model of the design lists
    the four statuses. *)
Inductive ReplayStatus : Type :=
| ReplayStatusAccepted
| ReplayStatusInProgress
| ReplayStatusSuccess
| ReplayStatusFailed.

#[global] Instance ReplayStatus_eq_dec : EqDecision ReplayStatus.
Proof. solve_decision. Defined.

(** [models.ReplaySpec], the persisted record. *)
Record ReplaySpec : Type := mkReplaySpec {
  ID : UUID;
  Job : JobSpec;
  StartDate : Time;
  EndDate : Time;
  Status : ReplayStatus
}.

(** [models.ReplayWorkerRequest].  The fields are those of the Go struct
    ([ID], [Job], [Start], [End], [Project], [JobSpecMap]), prefixed because
    [ReplaySpec] already owns [ID] and [Job]. *)
Record ReplayWorkerRequest : Type := mkRequest {
  ReqID : UUID;
  ReqJob : JobSpec;
  ReqStart : Time;
  ReqEnd : Time;
  ReqProject : ProjectSpec;
  ReqJobSpecMap : gmap string JobSpec
}.

(** The assignment [reqInput.ID = uuidOb]. *)
Definition set_ReqID (r : ReplayWorkerRequest) (u : UUID) : ReplayWorkerRequest :=
  mkRequest u (ReqJob r) (ReqStart r) (ReqEnd r) (ReqProject r) (ReqJobSpecMap r).

(** What the validator reads of a [tree.TreeNode]: [Data.GetName()] and
    [Runs.Values()], the run instances ([time.Time] values, held as
    [interface{}] and compared with [==]) in the order [Values] yields
    them. *)
Record TreeNode : Type := mkTreeNode {
  GetName : string;
  Runs_Values : list Time
}.

(** ** Conflict validator: the pure loops *)

Definition conflict : error := errors_New "conflict msg".

(** Inner loop of [checkAnyConflictedRuns]: one active run against every
    requested run. *)
Fixpoint conflictedRun (activeNodeRun : Time) (reqRuns : list Time) : option error :=
  match reqRuns with
  | [] => None
  | reqNodeRun :: reqRuns' =>
      if decide (activeNodeRun = reqNodeRun) then Some conflict
      else conflictedRun activeNodeRun reqRuns'
  end.

(** Outer loop of [checkAnyConflictedRuns]. *)
Fixpoint conflictedRuns (activeRuns reqRuns : list Time) : option error :=
  match activeRuns with
  | [] => None
  | activeNodeRun :: activeRuns' =>
      match conflictedRun activeNodeRun reqRuns with
      | Some err => Some err
      | None => conflictedRuns activeRuns' reqRuns
      end
  end.

Definition checkAnyConflictedRuns (activeNode reqNode : TreeNode) : option error :=
  conflictedRuns (Runs_Values activeNode) (Runs_Values reqNode).

(** Inner loop of [checkAnyConflictedDags].  The body returns from the whole
    function at the first requested node carrying the active node's name:
    [Some r] is that return with result [r], [None] is the loop running to
    its end. *)
Fixpoint conflictedDag (activeNode : TreeNode) (reqReplayNodes : list TreeNode)
  : option (option error) :=
  match reqReplayNodes with
  | [] => None
  | reqNode :: reqReplayNodes' =>
      if decide (GetName activeNode = GetName reqNode)
      then Some (checkAnyConflictedRuns activeNode reqNode)
      else conflictedDag activeNode reqReplayNodes'
  end.

Fixpoint checkAnyConflictedDags (activeNodes reqReplayNodes : list TreeNode) : option error :=
  match activeNodes with
  | [] => None
  | activeNode :: activeNodes' =>
      match conflictedDag activeNode reqReplayNodes with
      | Some r => r
      | None => checkAnyConflictedDags activeNodes' reqReplayNodes
      end
  end.

(** ** Collaborators *)

(** What [replay_manager.go] consumes without defining it.
    - [Store] is the database behind [ReplaySpecRepoFactory]; the repository
      [replaySpecRepoFac.New(job)] is that database scoped by [job], so the
      two methods of [store.ReplaySpecRepository] take the job as well.
      [Insert] yields its error (if any) and the database afterwards.
    - [Provider] is the state of the [utils.UUIDProvider].
    - [prepareTree] builds the dependency/run tree of a request and
      [GetAllNodes] flattens it.
    - [UUID_String] is [uuid.UUID.String]. *)
Class Collaborators : Type := {
  Store : Type;
  Provider : Type;
  Tree : Type;
  GetByStatus : JobSpec -> list ReplayStatus -> Store -> result (list ReplaySpec);
  Insert : JobSpec -> ReplaySpec -> Store -> option error * Store;
  NewUUID : Provider -> result UUID * Provider;
  prepareTree : ReplayWorkerRequest -> result Tree;
  GetAllNodes : Tree -> list TreeNode;
  UUID_String : UUID -> string
}.

(** ** The request channel *)

(** The unbuffered channel [requestQ], as the runtime sees it at one instant:
    whether it has been closed, how many goroutines are parked in a receive
    on it, and the requests handed over to receivers so far. *)
Record chan : Type := mkChan {
  chan_closed : bool;
  recvq : nat;
  handed : list ReplayWorkerRequest
}.

(** [make(chan *models.ReplayWorkerRequest, 0)]. *)
Definition make_chan : chan := mkChan false 0 [].

(** The three ways [select { case c <- v: ...; default: ... }] can go. *)
Inductive send_result : Type :=
| Sent (c : chan)
| WouldBlock
| SendOnClosed.

(** A send on a closed channel panics; on an open unbuffered channel it
    proceeds only if a receiver is parked, and hands the value to it;
    otherwise the [default] branch is taken. *)
Definition try_send (c : chan) (v : ReplayWorkerRequest) : send_result :=
  if chan_closed c then SendOnClosed
  else match recvq c with
       | O => WouldBlock
       | S n => Sent (mkChan false n (handed c ++ [v]))
       end.

(** ** The manager *)

Record ReplayManagerConfig : Type := mkConfig {
  NumWorkers : Z;
  WorkerTimeout : Z
}.

(** What a call of a Go function with results [(string, error)] ends in. *)
Inductive outcome : Type :=
| Return (id : string) (err : option error)
| Panic.

Section Manager.

Context `{Collab : Collaborators}.

(** Loop body of [validateReplayJobsConflict]: every path through it
    returns, so it runs for the first active record only. *)
Definition validateReplayJobsConflict (activeReplaySpecs : list ReplaySpec)
    (reqInput : ReplayWorkerRequest) (reqReplayNodes : list TreeNode) : option error :=
  match activeReplaySpecs with
  | [] => None
  | activeSpec :: _ =>
      let activeReplayWorkerRequest :=
        mkRequest (ID activeSpec) (Job activeSpec) (StartDate activeSpec) (EndDate activeSpec)
                  (ReqProject reqInput) (ReqJobSpecMap reqInput) in
      match prepareTree activeReplayWorkerRequest with
      | Err err => Some err
      | Ok activeTree =>
          let activeNodes := GetAllNodes activeTree in
          checkAnyConflictedDags activeNodes reqReplayNodes
      end
  end.

Definition statusToValidate : list ReplayStatus :=
  [ReplayStatusInProgress; ReplayStatusAccepted].

(** [validate(replaySpecRepo, reqInput)], the repository being the
    database [db] scoped by [job]. *)
Definition validate (job : JobSpec) (db : Store) (reqInput : ReplayWorkerRequest)
  : option error :=
  match prepareTree reqInput with
  | Err err => Some err
  | Ok reqReplayTree =>
      let reqReplayNodes := GetAllNodes reqReplayTree in
      match GetByStatus job statusToValidate db with
      | Err err =>
          if decide (err = ErrResourceNotFound) then None else Some err
      | Ok activeReplaySpecs =>
          validateReplayJobsConflict activeReplaySpecs reqInput reqReplayNodes
      end
  end.

(** The [Manager] struct.  [wg] is the counter of the wait group, [workers]
    the number of goroutines started with [go m.spawnServiceWorker()]; the
    mutex only brackets the write to [requestMap] and has no state of its
    own in a sequential run.  A manager value is the state one call meets:
    what the worker goroutines do in between shows only in [requestQ], whose
    [recvq] says how many of them wait in [range m.requestQ] at the instant
    of the send. *)
Record Manager : Type := mkManager {
  wg : nat;
  workers : nat;
  uuidProvider : Provider;
  config : ReplayManagerConfig;
  requestQ : chan;
  requestMap : gmap UUID bool;
  replaySpecRepoFac : Store
}.

(** [Manager.Replay].  The request is passed by pointer, so the request as
    the caller sees it afterwards is part of the result, next to the
    manager afterwards. *)
Definition Replay (m : Manager) (reqInput : ReplayWorkerRequest)
  : outcome * ReplayWorkerRequest * Manager :=
  let job := ReqJob reqInput in
  match validate job (replaySpecRepoFac m) reqInput with
  | Some err => (Return "" (Some err), reqInput, m)
  | None =>
      match NewUUID (uuidProvider m) with
      | (Err err, p) =>
          (Return "" (Some err), reqInput,
           mkManager (wg m) (workers m) p (config m) (requestQ m) (requestMap m)
                     (replaySpecRepoFac m))
      | (Ok uuidOb, p) =>
          let reqInput := set_ReqID reqInput uuidOb in
          let replay :=
            mkReplaySpec uuidOb (ReqJob reqInput) (ReqStart reqInput) (ReqEnd reqInput)
                         ReplayStatusAccepted in
          match Insert job replay (replaySpecRepoFac m) with
          | (Some err, db) =>
              (Return "" (Some err), reqInput,
               mkManager (wg m) (workers m) p (config m) (requestQ m) (requestMap m) db)
          | (None, db) =>
              match try_send (requestQ m) reqInput with
              | Sent q =>
                  (Return (UUID_String (ReqID reqInput)) None, reqInput,
                   mkManager (wg m) (workers m) p (config m) q
                             (<[ReqID reqInput := true]> (requestMap m)) db)
              | WouldBlock =>
                  (Return "" (Some ErrRequestQueueFull), reqInput,
                   mkManager (wg m) (workers m) p (config m) (requestQ m) (requestMap m) db)
              | SendOnClosed =>
                  (Panic, reqInput,
                   mkManager (wg m) (workers m) p (config m) (requestQ m) (requestMap m) db)
              end
          end
      end
  end.

(** One turn of the loop of [Manager.Init]: [m.wg.Add(1)] and
    [go m.spawnServiceWorker()]. *)
Definition spawn (m : Manager) : Manager :=
  mkManager (S (wg m)) (S (workers m)) (uuidProvider m) (config m) (requestQ m)
            (requestMap m) (replaySpecRepoFac m).

(** [for i := 0; i < m.config.NumWorkers; i++ { ... }], from a given [i];
    [None] when [fuel] turns do not reach the exit of the loop. *)
Fixpoint Init_loop (fuel : nat) (i : Z) (m : Manager) : option Manager :=
  if (i <? NumWorkers (config m))%Z then
    match fuel with
    | O => None
    | S fuel' => Init_loop fuel' (i + 1)%Z (spawn m)
    end
  else Some m.

Definition Init (m : Manager) : option Manager :=
  Init_loop (Z.to_nat (NumWorkers (config m))) 0 m.

(** [NewManager]; the worker argument is only ever used inside the worker
    goroutines and is left out. *)
Definition NewManager (replaySpecRepoFac : Store) (uuidProvider : Provider)
    (config : ReplayManagerConfig) : option Manager :=
  let mgr := mkManager 0 0 uuidProvider config make_chan ∅ replaySpecRepoFac in
  Init mgr.

End Manager.

(** ** An in-memory set of collaborators *)

Module InMemory.

(** Modelled from the spec: the record store, the identity provider and the
    tree builder belong to other packages ([store], [utils], [tree]) and to
    [prepareTree].  The stand-ins below follow sections 3 and 6 of the
    design: the store keeps the records in a list,
    answers [getByStatus] with the "not found" signal when no record
    matches, and can be told to fail; the provider hands out what a script
    says; a tree is the requested job followed by its direct dependents,
    each with one run a day over the inclusive date range. *)
Record MemStore : Type := mkMemStore {
  records : list ReplaySpec;
  insert_error : option error;
  query_error : option error
}.

Definition mem_GetByStatus (_ : JobSpec) (statuses : list ReplayStatus) (db : MemStore)
  : result (list ReplaySpec) :=
  match query_error db with
  | Some err => Err err
  | None =>
      match filter (fun r => Status r ∈ statuses) (records db) with
      | [] => Err ErrResourceNotFound
      | found => Ok found
      end
  end.

Definition mem_Insert (_ : JobSpec) (r : ReplaySpec) (db : MemStore)
  : option error * MemStore :=
  match insert_error db with
  | Some err => (Some err, db)
  | None => (None, mkMemStore (records db ++ [r]) None (query_error db))
  end.

Definition mem_NewUUID (script : list (result UUID)) : result UUID * list (result UUID) :=
  match script with
  | [] => (Err (errors_New "uuid: no entropy"), [])
  | r :: script' => (r, script')
  end.

(** A day, in nanoseconds. *)
Definition day : Z := 86400 * 1000000000.

(** The runs of a daily job between [start] and [stop], both included, in
    the location of [start]. *)
Definition daily_runs (start stop : Time) : list Time :=
  map (fun k => mkTime (unixNano start + day * Z.of_nat k)%Z None (location start))
      (seq 0 (Z.to_nat ((unixNano stop - unixNano start) / day + 1))).

Definition mem_prepareTree (dependents : string -> list string)
    (r : ReplayWorkerRequest) : result (list TreeNode) :=
  if (unixNano (ReqEnd r) <? unixNano (ReqStart r))%Z
  then Err (errors_New "replay: empty date range")
  else
    let runs := daily_runs (ReqStart r) (ReqEnd r) in
    Ok (map (fun n => mkTreeNode n runs) (Name (ReqJob r) :: dependents (Name (ReqJob r)))).

Definition collaborators (dependents : string -> list string) : Collaborators := {|
  Store := MemStore;
  Provider := list (result UUID);
  Tree := list TreeNode;
  GetByStatus := mem_GetByStatus;
  Insert := mem_Insert;
  NewUUID := mem_NewUUID;
  prepareTree := mem_prepareTree dependents;
  GetAllNodes := fun t => t;
  UUID_String := fun u => pretty u
|}.

(** Job "x" has the downstream dependent "y"; no other job has any. *)
Definition x_then_y (job : string) : list string :=
  if decide (job = "x") then ["y"] else [].

Definition world : Collaborators := collaborators x_then_y.

Definition job_x : JobSpec := mkJobSpec "x".
Definition job_y : JobSpec := mkJobSpec "y".
Definition job_z : JobSpec := mkJobSpec "z".
Definition project : ProjectSpec := mkProjectSpec "p".

(** A fresh request, from second [start] to second [stop] in UTC: no id
    yet. *)
Definition request (job : JobSpec) (start stop : Z) : ReplayWorkerRequest :=
  mkRequest uuid_Nil job (utc start) (utc stop) project ∅.

Definition empty_store : MemStore := mkMemStore [] None None.

(** A manager past [NewManager] with one worker, at an instant where
    [parked] of its workers wait in the receive. *)
Definition manager (db : MemStore) (script : list (result UUID)) (parked : nat)
  : @Manager world :=
  @mkManager world 1 1 script (mkConfig 1 5) (mkChan false parked []) ∅ db.

End InMemory.

(** ** The id invariant as the design words it *)

(** "[id] is unset until admission succeeds": a call of [Replay] on a request
    without id that returns an error leaves the request without id. *)
Definition id_unset_on_error `{Collab : Collaborators}
    (m : Manager) (reqInput : ReplayWorkerRequest) : Prop :=
  ReqID reqInput = uuid_Nil ->
  (exists id err, (Replay m reqInput).1.1 = Return id (Some err)) ->
  ReqID (Replay m reqInput).1.2 = uuid_Nil.

(** "Once set it is immutable": a call of [Replay] on a request that has an
    id leaves that id in place. *)
Definition id_never_reassigned `{Collab : Collaborators}
    (m : Manager) (reqInput : ReplayWorkerRequest) : Prop :=
  ReqID reqInput <> uuid_Nil ->
  ReqID (Replay m reqInput).1.2 = ReqID reqInput.

(** ** Two more sentences of the design as it words them *)

(** "If no slot is available at that instant, return [ErrRequestQueueFull]":
    a request that has passed validation, id generation and insert, and
    finds no worker waiting on the queue, gets that error. *)
Definition no_slot_means_queue_full `{Collab : Collaborators}
    (m : Manager) (reqInput : ReplayWorkerRequest) : Prop :=
  forall (uuidOb : UUID) (p : Provider) (db : Store),
    validate (ReqJob reqInput) (replaySpecRepoFac m) reqInput = None ->
    NewUUID (uuidProvider m) = (Ok uuidOb, p) ->
    Insert (ReqJob reqInput)
           {| ID := uuidOb; Job := ReqJob reqInput; StartDate := ReqStart reqInput;
              EndDate := ReqEnd reqInput; Status := ReplayStatusAccepted |}
           (replaySpecRepoFac m) = (None, db) ->
    recvq (requestQ m) = 0%nat ->
    (Replay m reqInput).1.1 = Return "" (Some ErrRequestQueueFull).


(** ** The worker goroutines *)

(** What one run of [spawnServiceWorker] does that others can see. *)
Inductive worker_event : Type :=
| EvLogInfo (job : string)
| EvWithTimeout (timeout : Z)
| EvProcess (timeout : Z) (reqInput : ReplayWorkerRequest)
| EvLogError (err : error)
| EvCancel
| EvDone.

Section Worker.

(** [ReplayWorker.Process]: the state [W] of the worker behind the interface,
    the deadline of the context it is called with, and the request. *)
Context {W : Type} (Process : Z -> ReplayWorkerRequest -> W -> option error * W).

(** Body of the loop [for reqInput := range m.requestQ], for the requests the
    goroutine receives until the queue is closed: log, derive the context,
    call [Process], on an error log it and cancel, then cancel. *)
Fixpoint serve (timeout : Z) (received : list ReplayWorkerRequest) (w : W)
  : list worker_event * W :=
  match received with
  | [] => ([], w)
  | reqInput :: received' =>
      let '(err, w1) := Process timeout reqInput w in
      let '(evs, w2) := serve timeout received' w1 in
      (([EvLogInfo (Name (ReqJob reqInput)); EvWithTimeout timeout;
         EvProcess timeout reqInput]
          ++ match err with
             | Some e => [EvLogError e; EvCancel]
             | None => []
             end
          ++ [EvCancel] ++ evs)%list, w2)
  end.

(** [spawnServiceWorker]: the loop, then the deferred [m.wg.Done()]. *)
Definition spawnServiceWorker (config : ReplayManagerConfig)
    (received : list ReplayWorkerRequest) (w : W) : list worker_event * W :=
  let '(evs, w') := serve (WorkerTimeout config) received w in
  ((evs ++ [EvDone])%list, w').

End Worker.

(** The requests a trace shows [Process] called with, in call order. *)
Definition processed (evs : list worker_event) : list ReplayWorkerRequest :=
  flat_map (fun ev => match ev with EvProcess _ r => [r] | _ => [] end) evs.

(** The errors a trace shows logged. *)
Definition logged_errors (evs : list worker_event) : list error :=
  flat_map (fun ev => match ev with EvLogError e => [e] | _ => [] end) evs.

Definition count_event (p : worker_event -> bool) (evs : list worker_event) : nat :=
  length (List.filter p evs).

Definition is_cancel (ev : worker_event) : bool :=
  match ev with EvCancel => true | _ => false end.

Definition is_context (ev : worker_event) : bool :=
  match ev with EvWithTimeout _ => true | _ => false end.

Definition is_done (ev : worker_event) : bool :=
  match ev with EvDone => true | _ => false end.

(** ** The pool: manager and worker goroutines together *)

Section PoolModel.

Context `{Collab : Collaborators}.

Definition set_requestQ (m : Manager) (q : chan) : Manager :=
  mkManager (wg m) (workers m) (uuidProvider m) (config m) q (requestMap m)
            (replaySpecRepoFac m).

Definition set_wg (m : Manager) (n : nat) : Manager :=
  mkManager n (workers m) (uuidProvider m) (config m) (requestQ m) (requestMap m)
            (replaySpecRepoFac m).

Definition set_requestMap (m : Manager) (tracked : gmap UUID bool) : Manager :=
  mkManager (wg m) (workers m) (uuidProvider m) (config m) (requestQ m) tracked
            (replaySpecRepoFac m).

(** The manager together with where the goroutines around it stand:
    [at_range] workers run and are about to evaluate [range m.requestQ]
    (just started, back from a request, or woken by the close of the queue),
    [recvq (requestQ mgr)] workers wait in the receive, one worker is inside
    the loop body for each request of [processing], and for each id of
    [marking] a caller of [Replay] stands between its send and its write to
    [requestMap]. *)
Record pool : Type := mkPool {
  mgr : Manager;
  at_range : nat;
  processing : list ReplayWorkerRequest;
  marking : list UUID
}.

(** One move of one goroutine.
    - [step_Init]: a call of [Init]; the goroutines it starts stand at the
      head of their loop.
    - [step_Replay]: a call of [Replay] that returns an error; it has not
      touched queue or map.  (A call that panics ends the program.)
    - [step_Replay_send]: a call of [Replay] up to and including its send:
      the store and the provider are as the call leaves them, the worker
      that took the request is in the loop body with it, and the caller has
      yet to take the lock and write the map.
    - [step_Replay_mark]: such a caller writes [m.requestMap[reqInput.ID] =
      true] and returns the id.
    - [step_park]: a worker reaches the receive on the open queue and waits.
    - [step_exit]: a worker finds the queue closed, leaves the loop, and the
      deferred [m.wg.Done()] runs.
    - [step_processed]: [Process] returns, with or without error; both
      branches fall through to the head of the loop.
    - [step_close]: [close(m.requestQ)] in [Close], on the open queue; it
      wakes every waiting worker.  (Closing a closed channel panics.) *)
Inductive pool_step : pool -> pool -> Prop :=
| step_Init (p : pool) (m' : Manager) :
    Init (mgr p) = Some m' ->
    pool_step p (mkPool m' (at_range p + (workers m' - workers (mgr p))) (processing p)
                        (marking p))
| step_Replay (p : pool) (reqInput reqInput' : ReplayWorkerRequest)
    (id : string) (err : error) (m' : Manager) :
    Replay (mgr p) reqInput = (Return id (Some err), reqInput', m') ->
    pool_step p (mkPool m' (at_range p) (processing p) (marking p))
| step_Replay_send (p : pool) (reqInput reqInput' : ReplayWorkerRequest)
    (id : string) (m' : Manager) :
    Replay (mgr p) reqInput = (Return id None, reqInput', m') ->
    pool_step p (mkPool (set_requestMap m' (requestMap (mgr p))) (at_range p)
                        (reqInput' :: processing p) (ReqID reqInput' :: marking p))
| step_Replay_mark (p : pool) (before after : list UUID) (id : UUID) :
    marking p = (before ++ id :: after)%list ->
    pool_step p (mkPool (set_requestMap (mgr p) (<[id := true]> (requestMap (mgr p))))
                        (at_range p) (processing p) (before ++ after)%list)
| step_park (p : pool) (k : nat) :
    at_range p = S k ->
    chan_closed (requestQ (mgr p)) = false ->
    pool_step p (mkPool (set_requestQ (mgr p)
                           (mkChan false (S (recvq (requestQ (mgr p))))
                                   (handed (requestQ (mgr p)))))
                        k (processing p) (marking p))
| step_exit (p : pool) (k n : nat) :
    at_range p = S k ->
    chan_closed (requestQ (mgr p)) = true ->
    wg (mgr p) = S n ->
    pool_step p (mkPool (set_wg (mgr p) n) k (processing p) (marking p))
| step_processed (p : pool) (before after : list ReplayWorkerRequest)
    (reqInput : ReplayWorkerRequest) :
    processing p = (before ++ reqInput :: after)%list ->
    pool_step p (mkPool (mgr p) (S (at_range p)) (before ++ after)%list (marking p))
| step_close (p : pool) :
    chan_closed (requestQ (mgr p)) = false ->
    pool_step p (mkPool (set_requestQ (mgr p)
                           (mkChan true 0 (handed (requestQ (mgr p)))))
                        (at_range p + recvq (requestQ (mgr p))) (processing p)
                        (marking p)).

(** The states a program gets to that builds the manager with [NewManager]
    and from then on only calls its methods. *)
Inductive reachable : pool -> Prop :=
| reach_NewManager (db : Store) (provider : Provider) (cfg : ReplayManagerConfig)
    (m : Manager) :
    NewManager db provider cfg = Some m ->
    reachable (mkPool m (workers m) [] [])
| reach_step (p p' : pool) :
    reachable p -> pool_step p p' -> reachable p'.

(** Several moves in a row. *)
Inductive pool_steps : pool -> pool -> Prop :=
| steps_refl (p : pool) : pool_steps p p
| steps_cons (p p' p'' : pool) : pool_step p p' -> pool_steps p' p'' -> pool_steps p p''.

(** The wait group counts the goroutines that have not returned. *)
Definition wg_counts_workers (p : pool) : Prop :=
  wg (mgr p) = (at_range p + recvq (requestQ (mgr p)) + length (processing p))%nat.

(** The tracking map follows the queue: it holds [true] only, and the id of
    every request handed to a worker is in it or is about to be written by
    the caller that sent the request. *)
Definition map_follows_queue (p : pool) : Prop :=
  (forall id v, requestMap (mgr p) !! id = Some v -> v = true) /\
  (forall r, In r (handed (requestQ (mgr p))) ->
             requestMap (mgr p) !! ReqID r = Some true \/ In (ReqID r) (marking p)).

(** What holds of every state of the pool: the wait group counts the
    goroutines that have not returned, a closed queue has nobody waiting,
    the tracking map follows the queue, and every request being processed
    has been handed over. *)
Definition pool_inv (p : pool) : Prop :=
  wg_counts_workers p /\
  (chan_closed (requestQ (mgr p)) = true -> recvq (requestQ (mgr p)) = 0%nat) /\
  map_follows_queue p /\
  (forall r, In r (processing p) -> In r (handed (requestQ (mgr p)))).

End PoolModel.

(** ** A run of the pool *)

Module Scenario.

Import InMemory.

(** One worker and one request: the manager is built, its worker reaches the
    receive, a request on "x" is sent to it as request 7, the caller marks
    the id, and [Close] closes the queue while the worker is still
    processing. *)
Definition fresh : @pool world :=
  mkPool (@mkManager world 1 1 [Ok 7%N] (mkConfig 1 5) (mkChan false 0 []) ∅ empty_store)
         1 [] [].

Definition waiting : @pool world :=
  mkPool (@mkManager world 1 1 [Ok 7%N] (mkConfig 1 5) (mkChan false 1 []) ∅ empty_store)
         0 [] [].

Definition admitted_request : ReplayWorkerRequest :=
  set_ReqID (request job_x 0 86400) 7%N.

Definition admitted_store : MemStore :=
  mkMemStore [mkReplaySpec 7%N job_x (utc 0) (utc 86400) ReplayStatusAccepted] None None.

Definition sent : @pool world :=
  mkPool (@mkManager world 1 1 [] (mkConfig 1 5) (mkChan false 0 [admitted_request])
                     ∅ admitted_store)
         0 [admitted_request] [7%N].

Definition admitted : @pool world :=
  mkPool (@mkManager world 1 1 [] (mkConfig 1 5) (mkChan false 0 [admitted_request])
                     (<[7%N := true]> ∅) admitted_store)
         0 [admitted_request] [].

Definition closing : @pool world :=
  mkPool (@mkManager world 1 1 [] (mkConfig 1 5) (mkChan true 0 [admitted_request])
                     (<[7%N := true]> ∅) admitted_store)
         0 [admitted_request] [].

End Scenario.

(** * External tables of the BigQuery datastore

    Shallow embedding of [createExternalTable] and [ensureExternalTable].
    BigQuery itself, the adapter that turns a table specification into the
    metadata of the API, [ensureDataset] and [time.Parse] are reached through
    the class [Service]. *)

Module BigQuery.

(** Go [error] values as this file tells them apart: a [*googleapi.Error]
    with its HTTP status code, the result of [errors.Wrapf], and any other
    error. *)
Inductive bq_error : Type :=
| GoogleApiError (code : Z)
| Wrapf (cause : bq_error) (msg : string)
| PlainError (msg : string).

Inductive res (A : Type) : Type :=
| Good (a : A)
| Bad (e : bq_error).
Arguments Good {A} a.
Arguments Bad {A} e.

Definition StatusNotFound : Z := 404.

(** The zero [time.Time]: second 0 of year 1, UTC. *)
Definition time_zero : Time := utc (-62135596800).

(** [BQTable] and its metadata, with the fields the two functions use. *)
Record BQTableMetadata : Type := mkBQTableMetadata {
  Description : string;
  ExpirationTime : string;
  Labels : gmap string string
}.

Record BQTable : Type := mkBQTable {
  Project : string;
  Dataset : string;
  Table : string;
  Metadata : BQTableMetadata
}.

(** [bqResource.Metadata.Labels = spec.Labels]. *)
Definition set_Labels (t : BQTable) (labels : gmap string string) : BQTable :=
  mkBQTable (Project t) (Dataset t) (Table t)
            (mkBQTableMetadata (Description (Metadata t)) (ExpirationTime (Metadata t))
                               labels).

(** [models.ResourceSpec]: the specification proper is an [interface{}]
    whose dynamic type is [BQTable] or something else. *)
Inductive SpecBody : Type :=
| SpecBQTable (t : BQTable)
| SpecOther.

Record ResourceSpec : Type := mkResourceSpec {
  Spec : SpecBody;
  SpecLabels : gmap string string
}.

(** [bqapi.TableMetadataToUpdate]: description, expiration time (the zero
    time when not set) and the labels given to [SetLabel]. *)
Record TableMetadataToUpdate : Type := mkUpdate {
  upd_Description : string;
  upd_ExpirationTime : Time;
  upd_setLabels : gmap string string
}.

Definition SetLabel (k v : string) (u : TableMetadataToUpdate) : TableMetadataToUpdate :=
  mkUpdate (upd_Description u) (upd_ExpirationTime u) (<[k := v]> (upd_setLabels u)).

Definition set_upd_ExpirationTime (u : TableMetadataToUpdate) (t : Time)
  : TableMetadataToUpdate :=
  mkUpdate (upd_Description u) t (upd_setLabels u).

(** A table handle, [client.DatasetInProject(project, dataset).Table(table)],
    and a dataset handle. *)
Definition table_handle : Type := string * string * string.
Definition dataset_handle : Type := string * string.

(** What the two functions consume.
    - [State] is BigQuery as the calls reach it; [Table_Metadata] reads it,
      [Table_Create], [Table_Update] and [ensureDataset] may change it.
    - [TableMetadata] is [bqapi.TableMetadata], of which the code writes
      [ExpirationTime] and reads [ETag].
    - [BQDatasetMetadata_zero] is the value [BQDatasetMetadata{}]. *)
Class Service : Type := {
  State : Type;
  TableMetadata : Type;
  BQDatasetMetadata : Type;
  BQDatasetMetadata_zero : BQDatasetMetadata;
  set_ExpirationTime : TableMetadata -> Time -> TableMetadata;
  ETag : TableMetadata -> string;
  Table_Metadata : table_handle -> State -> res TableMetadata;
  Table_Create : table_handle -> TableMetadata -> State -> option bq_error * State;
  Table_Update : table_handle -> TableMetadataToUpdate -> string -> State
                 -> option bq_error * State;
  bqCreateTableMetaAdapter : BQTable -> res TableMetadata;
  time_Parse_RFC3339 : string -> res Time;
  ensureDataset : dataset_handle -> string * string * BQDatasetMetadata -> bool -> State
                  -> option bq_error * State
}.

Section Functions.

Context `{Svc : Service}.

(** The test [!ok || metaErr.Code != http.StatusNotFound] on the error of
    [tableHandle.Metadata]. *)
Definition not_a_404 (err : bq_error) : bool :=
  match err with
  | GoogleApiError code => negb (code =? StatusNotFound)%Z
  | _ => true
  end.

Definition parse_failure (err : bq_error) (timestamp : string) : bq_error :=
  Wrapf err ("unable to parse timestamp " ++ timestamp).

(** The update [ensureExternalTable] builds for a table that exists:
    description, expiration time if the specification names one, and one
    [SetLabel] per label of the specification. *)
Definition update_for (t : BQTable) : res TableMetadataToUpdate :=
  let m := mkUpdate (Description (Metadata t)) time_zero ∅ in
  let with_labels (m : TableMetadataToUpdate) :=
    map_fold SetLabel m (Labels (Metadata t)) in
  if decide (ExpirationTime (Metadata t) = "") then Good (with_labels m)
  else
    match time_Parse_RFC3339 (ExpirationTime (Metadata t)) with
    | Bad err => Bad (parse_failure err (ExpirationTime (Metadata t)))
    | Good expiryTime => Good (with_labels (set_upd_ExpirationTime m expiryTime))
    end.

Definition ensureExternalTable (tableHandle : table_handle) (t : BQTable) (upsert : bool)
    (s : State) : option bq_error * State :=
  match Table_Metadata tableHandle s with
  | Bad err =>
      if not_a_404 err then (Some err, s)
      else
        match bqCreateTableMetaAdapter t with
        | Bad err => (Some err, s)
        | Good meta =>
            if decide (ExpirationTime (Metadata t) = "") then
              Table_Create tableHandle meta s
            else
              match time_Parse_RFC3339 (ExpirationTime (Metadata t)) with
              | Bad err => (Some (parse_failure err (ExpirationTime (Metadata t))), s)
              | Good expiryTime =>
                  Table_Create tableHandle (set_ExpirationTime meta expiryTime) s
              end
        end
  | Good meta =>
      if negb upsert then (None, s)
      else
        match update_for t with
        | Bad err => (Some err, s)
        | Good m =>
            match Table_Update tableHandle m (ETag meta) s with
            | (Some err, s') => (Some err, s')
            | (None, s') => (None, s')
            end
        end
  end.

Definition createExternalTable (spec : ResourceSpec) (upsert : bool) (s : State)
  : option bq_error * State :=
  match Spec spec with
  | SpecOther => (Some (PlainError "failed to read table spec for bigquery"), s)
  | SpecBQTable bqResource =>
      let bqResource := set_Labels bqResource (SpecLabels spec) in
      let dataset := (Project bqResource, Dataset bqResource) in
      match ensureDataset dataset
              (Project bqResource, Dataset bqResource, BQDatasetMetadata_zero) false s with
      | (Some err, s') => (Some err, s')
      | (None, s') =>
          let table := (Project bqResource, Dataset bqResource, Table bqResource) in
          ensureExternalTable table bqResource upsert s'
      end
  end.

End Functions.

End BigQuery.

(** ** An in-memory BigQuery *)

Module MemBigQuery.

Import BigQuery.

(** A stand-in for the service, enough to run the two functions: tables by
    handle with description, expiration, labels and a version tag; a lookup
    of a missing table answers 404, a create of an existing one 409, an
    update with a stale tag 412; an outage makes every call fail. *)
Record MemTable : Type := mkMemTable {
  md_Description : string;
  md_ExpirationTime : Time;
  md_Labels : gmap string string;
  md_ETag : string
}.

Record MemState : Type := mkMemState {
  tables : list (table_handle * MemTable);
  datasets : list dataset_handle;
  outage : option bq_error
}.

Fixpoint find_table (h : table_handle) (ts : list (table_handle * MemTable))
  : option MemTable :=
  match ts with
  | [] => None
  | (h', md) :: ts' => if decide (h = h') then Some md else find_table h ts'
  end.

Definition mem_Metadata (h : table_handle) (s : MemState) : res MemTable :=
  match outage s with
  | Some err => Bad err
  | None =>
      match find_table h (tables s) with
      | Some md => Good md
      | None => Bad (GoogleApiError 404)
      end
  end.

Definition mem_Create (h : table_handle) (md : MemTable) (s : MemState)
  : option bq_error * MemState :=
  match outage s with
  | Some err => (Some err, s)
  | None =>
      match find_table h (tables s) with
      | Some _ => (Some (GoogleApiError 409), s)
      | None => (None, mkMemState ((h, md) :: tables s) (datasets s) None)
      end
  end.

Definition mem_Update (h : table_handle) (u : TableMetadataToUpdate) (etag : string)
    (s : MemState) : option bq_error * MemState :=
  match outage s with
  | Some err => (Some err, s)
  | None =>
      match find_table h (tables s) with
      | None => (Some (GoogleApiError 404), s)
      | Some md =>
          if decide (etag = md_ETag md) then
            (None,
             mkMemState
               ((h, mkMemTable (upd_Description u)
                               (if decide (upd_ExpirationTime u = time_zero)
                                then md_ExpirationTime md else upd_ExpirationTime u)
                               (upd_setLabels u ∪ md_Labels md)
                               (md_ETag md ++ "+")) :: tables s)
               (datasets s) None)
          else (Some (GoogleApiError 412), s)
      end
  end.

Definition mem_adapter (t : BQTable) : res MemTable :=
  if decide (Table t = "") then Bad (PlainError "invalid table name")
  else Good (mkMemTable (Description (Metadata t)) time_zero (Labels (Metadata t)) "v1").

(** Knows one timestamp. *)
Definition mem_Parse (timestamp : string) : res Time :=
  if decide (timestamp = "2021-01-01T00:00:00Z") then Good (utc 1609459200)
  else Bad (PlainError "parsing time: cannot parse").

Definition mem_ensureDataset (d : dataset_handle) (_ : string * string * unit)
    (_ : bool) (s : MemState) : option bq_error * MemState :=
  match outage s with
  | Some err => (Some err, s)
  | None =>
      if decide (d ∈ datasets s) then (None, s)
      else (None, mkMemState (tables s) (d :: datasets s) None)
  end.

Definition service : Service := {|
  State := MemState;
  TableMetadata := MemTable;
  BQDatasetMetadata := unit;
  BQDatasetMetadata_zero := tt;
  set_ExpirationTime :=
    fun md t => mkMemTable (md_Description md) t (md_Labels md) (md_ETag md);
  ETag := md_ETag;
  Table_Metadata := mem_Metadata;
  Table_Create := mem_Create;
  Table_Update := mem_Update;
  bqCreateTableMetaAdapter := mem_adapter;
  time_Parse_RFC3339 := mem_Parse;
  ensureDataset := mem_ensureDataset
|}.

Definition events : table_handle := ("proj", "sales", "events").

Definition events_spec (expiration : string) (labels : gmap string string) : BQTable :=
  mkBQTable "proj" "sales" "events" (mkBQTableMetadata "click events" expiration labels).

Definition empty : MemState := mkMemState [] [] None.

Definition with_events : MemState :=
  mkMemState [(events, mkMemTable "old" time_zero ∅ "v1")] [("proj", "sales")] None.

End MemBigQuery.

(** ** The run comparison *)

Lemma conflictedRun_cases (a : Time) (reqRuns : list Time) :
  conflictedRun a reqRuns = None \/ conflictedRun a reqRuns = Some conflict.
Proof.
  induction reqRuns as [|r reqRuns IH]; simpl; [now left|].
  destruct (decide (a = r)); [now right|exact IH].
Qed.

Lemma conflictedRun_Some (a : Time) (reqRuns : list Time) :
  conflictedRun a reqRuns = Some conflict <-> In a reqRuns.
Proof.
  induction reqRuns as [|r reqRuns IH]; simpl.
  - split; [discriminate|tauto].
  - destruct (decide (a = r)) as [->|Hne].
    + split; auto.
    + rewrite IH. split; [auto|intros [Heq|Hin]; [congruence|exact Hin]].
Qed.

Lemma conflictedRuns_cases (activeRuns reqRuns : list Time) :
  conflictedRuns activeRuns reqRuns = None \/
  conflictedRuns activeRuns reqRuns = Some conflict.
Proof.
  induction activeRuns as [|a activeRuns IH]; simpl; [now left|].
  destruct (conflictedRun_cases a reqRuns) as [-> | ->]; [exact IH|now right].
Qed.

Lemma conflictedRuns_Some (activeRuns reqRuns : list Time) :
  conflictedRuns activeRuns reqRuns = Some conflict <->
  exists run, In run activeRuns /\ In run reqRuns.
Proof.
  induction activeRuns as [|a activeRuns IH]; simpl.
  - split; [discriminate|intros (run & [] & _)].
  - destruct (conflictedRun_cases a reqRuns) as [Hnone | Hsome].
    + rewrite Hnone, IH. split.
      * intros (run & Hin & Hreq). exists run. auto.
      * intros (run & [<-|Hin] & Hreq).
        -- apply conflictedRun_Some in Hreq. congruence.
        -- exists run. auto.
    + rewrite Hsome. split; [|reflexivity].
      intros _. exists a. split; [now left|now apply conflictedRun_Some].
Qed.

Lemma conflictedRuns_None (activeRuns reqRuns : list Time) :
  conflictedRuns activeRuns reqRuns = None <->
  forall run, In run activeRuns -> ~ In run reqRuns.
Proof.
  split.
  - intros Hnone run Hact Hreq.
    assert (conflictedRuns activeRuns reqRuns = Some conflict) as Hsome
      by (apply conflictedRuns_Some; eauto).
    congruence.
  - intros Hdisj. destruct (conflictedRuns_cases activeRuns reqRuns) as [H|H]; [exact H|].
    apply conflictedRuns_Some in H as (run & Hact & Hreq).
    now destruct (Hdisj run Hact).
Qed.




(** ** Trees without a common job name *)

Lemma conflictedDag_no_name (activeNode : TreeNode) (reqReplayNodes : list TreeNode) :
  (forall reqNode, In reqNode reqReplayNodes -> GetName activeNode <> GetName reqNode) ->
  conflictedDag activeNode reqReplayNodes = None.
Proof.
  induction reqReplayNodes as [|r reqReplayNodes IH]; intros Hne; simpl; [reflexivity|].
  destruct (decide (GetName activeNode = GetName r)) as [Heq|_].
  - exfalso. apply (Hne r); [now left|exact Heq].
  - apply IH. intros reqNode Hin. apply Hne. now right.
Qed.

(** C6: when no active node and requested node carry the same job name,
    [checkAnyConflictedDags] returns no error, whatever the runs of the
    nodes are. *)
Theorem disjoint_names_never_conflict (activeNodes reqReplayNodes : list TreeNode) :
  (forall activeNode reqNode,
      In activeNode activeNodes -> In reqNode reqReplayNodes ->
      GetName activeNode <> GetName reqNode) ->
  checkAnyConflictedDags activeNodes reqReplayNodes = None.
Proof.
  induction activeNodes as [|a activeNodes IH]; intros Hne; simpl; [reflexivity|].
  rewrite conflictedDag_no_name.
  - apply IH. intros activeNode reqNode Hact. apply Hne. now right.
  - intros reqNode Hreq. apply Hne; [now left|exact Hreq].
Qed.

Lemma conflictedDag_sound (activeNode : TreeNode) (reqReplayNodes : list TreeNode)
    (err : error) :
  conflictedDag activeNode reqReplayNodes = Some (Some err) ->
  err = conflict /\
  exists reqNode run,
    In reqNode reqReplayNodes /\ GetName activeNode = GetName reqNode /\
    In run (Runs_Values activeNode) /\ In run (Runs_Values reqNode).
Proof.
  induction reqReplayNodes as [|q reqReplayNodes IH]; simpl; [discriminate|].
  destruct (decide (GetName activeNode = GetName q)) as [Hname|_].
  - intros [= Hruns]. unfold checkAnyConflictedRuns in Hruns.
    destruct (conflictedRuns_cases (Runs_Values activeNode) (Runs_Values q)) as [Hn|Hs];
      [congruence|].
    split; [congruence|].
    apply conflictedRuns_Some in Hs as (run & Hact & Hreq).
    exists q, run. auto.
  - intros Hrec. destruct (IH Hrec) as (Herr & q' & run & Hq & Hrest).
    split; [exact Herr|]. exists q', run. auto.
Qed.

(** What [checkAnyConflictedDags] reports is never spurious: an error is the
    conflict, and comes from an active and a requested node of one name that
    share a run. *)
Lemma checkAnyConflictedDags_sound (activeNodes reqReplayNodes : list TreeNode)
    (err : error) :
  checkAnyConflictedDags activeNodes reqReplayNodes = Some err ->
  err = conflict /\
  exists activeNode reqNode run,
    In activeNode activeNodes /\ In reqNode reqReplayNodes /\
    GetName activeNode = GetName reqNode /\
    In run (Runs_Values activeNode) /\ In run (Runs_Values reqNode).
Proof.
  induction activeNodes as [|a activeNodes IH]; simpl; [discriminate|].
  destruct (conflictedDag a reqReplayNodes) as [r|] eqn:Hdag.
  - intros ->. destruct (conflictedDag_sound _ _ _ Hdag) as (Herr & q & run & Hrest).
    split; [exact Herr|]. exists a, q, run. auto.
  - intros Hrec. destruct (IH Hrec) as (Herr & a' & q' & run & Ha & Hrest).
    split; [exact Herr|]. exists a', q', run. auto.
Qed.

(** Two trees over the same two days, one on "x" and "y", one on "z". *)
Lemma disjoint_names_never_conflict_witness :
  checkAnyConflictedDags
    [mkTreeNode "x" [utc 0; utc 86400]; mkTreeNode "y" [utc 0; utc 86400]]
    [mkTreeNode "z" [utc 0; utc 86400]] = None.
Proof.
  apply disjoint_names_never_conflict.
  intros activeNode reqNode Hact Hreq. simpl in Hact, Hreq.
  destruct Hreq as [<-|[]].
  destruct Hact as [<-|[<-|[]]]; simpl; discriminate.
Defined.

(** ** The validator against the store *)

Section Validator.

Context `{Collab : Collaborators}.

(** C7: once the tree of the request is built, a query for the records in
    status in-progress or accepted that answers with the "not found"
    sentinel makes [validate] return no error, and a query that answers
    with any other error makes [validate] return that error. *)
Theorem not_found_is_success (job : JobSpec) (db : Store)
    (reqInput : ReplayWorkerRequest) (reqReplayTree : Tree) :
  prepareTree reqInput = Ok reqReplayTree ->
  (GetByStatus job [ReplayStatusInProgress; ReplayStatusAccepted] db
     = Err ErrResourceNotFound ->
   validate job db reqInput = None) /\
  (forall err,
      err <> ErrResourceNotFound ->
      GetByStatus job [ReplayStatusInProgress; ReplayStatusAccepted] db = Err err ->
      validate job db reqInput = Some err).
Proof.
  intros Htree. unfold validate, statusToValidate. rewrite Htree. split.
  - intros ->. now rewrite decide_True.
  - intros err Hne ->. now rewrite decide_False.
Qed.

(** C8: for the active record it examines, [validateReplayJobsConflict]
    asks [prepareTree] for the tree of the request made of the record's id,
    job, start date and end date and of the project and job specification
    map of the incoming request; its answer is the error of that call or
    the comparison of that tree's nodes with the requested nodes.  So the
    answer is the same for any two incoming requests with the same project
    and job specification map. *)
Theorem active_tree_uses_current_context (activeSpec : ReplaySpec)
    (others : list ReplaySpec) (reqInput : ReplayWorkerRequest)
    (reqReplayNodes : list TreeNode) :
  validateReplayJobsConflict (activeSpec :: others) reqInput reqReplayNodes =
    match prepareTree
            {| ReqID := ID activeSpec;
               ReqJob := Job activeSpec;
               ReqStart := StartDate activeSpec;
               ReqEnd := EndDate activeSpec;
               ReqProject := ReqProject reqInput;
               ReqJobSpecMap := ReqJobSpecMap reqInput |} with
    | Err err => Some err
    | Ok activeTree => checkAnyConflictedDags (GetAllNodes activeTree) reqReplayNodes
    end
  /\
  (forall reqInput',
      ReqProject reqInput' = ReqProject reqInput ->
      ReqJobSpecMap reqInput' = ReqJobSpecMap reqInput ->
      validateReplayJobsConflict (activeSpec :: others) reqInput' reqReplayNodes =
      validateReplayJobsConflict (activeSpec :: others) reqInput reqReplayNodes).
Proof.
  split; [reflexivity|].
  intros reqInput' Hproject Hmap. unfold validateReplayJobsConflict.
  now rewrite Hproject, Hmap.
Qed.

End Validator.

(** An empty store answers "not found"; a store that is down answers with
    its own error. *)
Lemma not_found_is_success_witness :
  @validate InMemory.world InMemory.job_x InMemory.empty_store
            (InMemory.request InMemory.job_x 0 86400) = None /\
  @validate InMemory.world InMemory.job_x
            (InMemory.mkMemStore [] None (Some (errors_New "store: connection lost")))
            (InMemory.request InMemory.job_x 0 86400)
    = Some (errors_New "store: connection lost").
Proof.
  split.
  - apply (proj1 (@not_found_is_success InMemory.world InMemory.job_x InMemory.empty_store
                    (InMemory.request InMemory.job_x 0 86400)
                    [mkTreeNode "x" [utc 0; utc 86400]; mkTreeNode "y" [utc 0; utc 86400]]
                    eq_refl)).
    reflexivity.
  - apply (proj2 (@not_found_is_success InMemory.world InMemory.job_x
                    (InMemory.mkMemStore [] None (Some (errors_New "store: connection lost")))
                    (InMemory.request InMemory.job_x 0 86400)
                    [mkTreeNode "x" [utc 0; utc 86400]; mkTreeNode "y" [utc 0; utc 86400]]
                    eq_refl)).
    + discriminate.
    + reflexivity.
Defined.

(** An active replay of "y" over one day, seen from a request on "x" and from
    a request on "z" that share project and job specifications. *)
Lemma active_tree_uses_current_context_witness :
  @validateReplayJobsConflict InMemory.world
    [mkReplaySpec 1%N InMemory.job_y (utc 86400) (utc 86400) ReplayStatusAccepted]
    (InMemory.request InMemory.job_z 0 0)
    [mkTreeNode "x" [utc 0; utc 86400]; mkTreeNode "y" [utc 0; utc 86400]]
  =
  @validateReplayJobsConflict InMemory.world
    [mkReplaySpec 1%N InMemory.job_y (utc 86400) (utc 86400) ReplayStatusAccepted]
    (InMemory.request InMemory.job_x 0 86400)
    [mkTreeNode "x" [utc 0; utc 86400]; mkTreeNode "y" [utc 0; utc 86400]].
Proof.
  apply (proj2 (@active_tree_uses_current_context InMemory.world
                  (mkReplaySpec 1%N InMemory.job_y (utc 86400) (utc 86400) ReplayStatusAccepted) []
                  (InMemory.request InMemory.job_x 0 86400)
                  [mkTreeNode "x" [utc 0; utc 86400]; mkTreeNode "y" [utc 0; utc 86400]]));
    reflexivity.
Defined.

(** C1: evaluation of the validator where it misses an overlap.  The active
    replay of "x" over the requested days is a conflict when it is the only
    active record, and goes unnoticed behind an active replay of "z"; the
    shared run of "y" goes unnoticed behind the pair of "x" nodes whose runs
    differ. *)
Theorem overlap_behind_first_match_missed :
  let reqInput := InMemory.request InMemory.job_x 0 86400 in
  let active_x := mkReplaySpec 2%N InMemory.job_x (utc 0) (utc 86400) ReplayStatusInProgress in
  let active_z := mkReplaySpec 1%N InMemory.job_z (utc 0) (utc 86400) ReplayStatusAccepted in
  let db specs := InMemory.mkMemStore specs None None in
  (@validate InMemory.world InMemory.job_x (db [active_x]) reqInput = Some conflict /\
   @validate InMemory.world InMemory.job_x (db [active_z; active_x]) reqInput = None) /\
  (checkAnyConflictedRuns (mkTreeNode "y" [utc 86400]) (mkTreeNode "y" [utc 86400])
     = Some conflict /\
   checkAnyConflictedDags
     [mkTreeNode "x" [utc 0]; mkTreeNode "y" [utc 86400]]
     [mkTreeNode "x" [utc 86400]; mkTreeNode "y" [utc 86400]] = None).
Proof. repeat split. Qed.

(** ** Admission *)

Section Admission.

Context `{Collab : Collaborators}.

(** C2: [Replay] validates before it does anything else.  When the
    validator answers an error, [Replay] returns that error and leaves the
    request and the whole manager (store, queue, tracking map, identity
    provider) as they were; and whenever a call changed the store, the
    queue or the tracking map, the validator had passed the request. *)
Theorem validator_runs_before_effects (m : Manager) (reqInput : ReplayWorkerRequest) :
  (forall err,
      validate (ReqJob reqInput) (replaySpecRepoFac m) reqInput = Some err ->
      Replay m reqInput = (Return "" (Some err), reqInput, m)) /\
  (replaySpecRepoFac (Replay m reqInput).2 <> replaySpecRepoFac m \/
   requestQ (Replay m reqInput).2 <> requestQ m \/
   requestMap (Replay m reqInput).2 <> requestMap m ->
   validate (ReqJob reqInput) (replaySpecRepoFac m) reqInput = None).
Proof.
  unfold Replay. split.
  - now intros err ->.
  - destruct (validate (ReqJob reqInput) (replaySpecRepoFac m) reqInput) as [err|];
      [|reflexivity].
    simpl. intros [H|[H|H]]; now destruct H.
Qed.

(** C3: after validation, id generation and a successful insert of the
    accepted record, a send that finds the open queue without a parked
    worker makes [Replay] return [ErrRequestQueueFull]; the store stays as
    the insert left it, and neither the tracking map nor the queue
    changes. *)
Theorem queue_full_keeps_record (m : Manager) (reqInput : ReplayWorkerRequest)
    (uuidOb : UUID) (p : Provider) (db : Store) :
  validate (ReqJob reqInput) (replaySpecRepoFac m) reqInput = None ->
  NewUUID (uuidProvider m) = (Ok uuidOb, p) ->
  Insert (ReqJob reqInput)
         {| ID := uuidOb; Job := ReqJob reqInput; StartDate := ReqStart reqInput;
            EndDate := ReqEnd reqInput; Status := ReplayStatusAccepted |}
         (replaySpecRepoFac m) = (None, db) ->
  chan_closed (requestQ m) = false ->
  recvq (requestQ m) = 0%nat ->
  let '(out, _, m') := Replay m reqInput in
  out = Return "" (Some ErrRequestQueueFull) /\
  replaySpecRepoFac m' = db /\
  requestMap m' = requestMap m /\
  requestQ m' = requestQ m.
Proof.
  intros Hvalid Hid Hinsert Hopen Hnone.
  unfold Replay, try_send. rewrite Hvalid, Hid. simpl.
  rewrite Hinsert, Hopen, Hnone. auto.
Qed.

(** C4: past validation and id generation, [Replay] inserts one record:
    its id is the fresh id (which the request now carries too), its job and
    dates are the request's, its status is accepted.  The store after the
    call is the store that insert leaves, and when the insert answers an
    error [Replay] returns it with the queue and the tracking map
    untouched. *)
Theorem insert_accepted_record (m : Manager) (reqInput : ReplayWorkerRequest)
    (uuidOb : UUID) (p : Provider) :
  validate (ReqJob reqInput) (replaySpecRepoFac m) reqInput = None ->
  NewUUID (uuidProvider m) = (Ok uuidOb, p) ->
  exists replay : ReplaySpec,
    (ID replay = uuidOb /\ Job replay = ReqJob reqInput /\
     StartDate replay = ReqStart reqInput /\ EndDate replay = ReqEnd reqInput /\
     Status replay = ReplayStatusAccepted) /\
    let '(out, reqInput', m') := Replay m reqInput in
    ReqID reqInput' = ID replay /\
    replaySpecRepoFac m' = (Insert (ReqJob reqInput) replay (replaySpecRepoFac m)).2 /\
    (forall err,
        (Insert (ReqJob reqInput) replay (replaySpecRepoFac m)).1 = Some err ->
        out = Return "" (Some err) /\
        requestQ m' = requestQ m /\
        requestMap m' = requestMap m /\
        handed (requestQ m') = handed (requestQ m)).
Proof.
  intros Hvalid Hid.
  exists {| ID := uuidOb; Job := ReqJob reqInput; StartDate := ReqStart reqInput;
            EndDate := ReqEnd reqInput; Status := ReplayStatusAccepted |}.
  split; [simpl; auto|].
  unfold Replay. rewrite Hvalid, Hid. simpl.
  destruct (Insert _ _ _) as [[err|] db]; simpl.
  - split; [reflexivity|]. split; [reflexivity|].
    intros err' [= <-]. auto.
  - destruct (try_send _ _); simpl; (split; [reflexivity|]); (split; [reflexivity|]);
      intros err [=].
Qed.

(** C9, as the code has it: [Replay] touches no field of the request but
    the id.  The id is left as it was when the validator or the identity
    provider answers an error, which [Replay] then returns; once an id has
    been generated the request carries it, whatever the insert and the
    send do afterwards. *)
Theorem id_assigned_after_generation (m : Manager) (reqInput : ReplayWorkerRequest) :
  let '(out, reqInput', _) := Replay m reqInput in
  (ReqJob reqInput' = ReqJob reqInput /\ ReqStart reqInput' = ReqStart reqInput /\
   ReqEnd reqInput' = ReqEnd reqInput /\ ReqProject reqInput' = ReqProject reqInput /\
   ReqJobSpecMap reqInput' = ReqJobSpecMap reqInput) /\
  match validate (ReqJob reqInput) (replaySpecRepoFac m) reqInput with
  | Some err => out = Return "" (Some err) /\ ReqID reqInput' = ReqID reqInput
  | None =>
      match NewUUID (uuidProvider m) with
      | (Err err, _) => out = Return "" (Some err) /\ ReqID reqInput' = ReqID reqInput
      | (Ok uuidOb, _) => ReqID reqInput' = uuidOb
      end
  end.
Proof.
  unfold Replay.
  destruct (validate _ _ _) as [err|]; [auto 10|].
  destruct (NewUUID _) as [[uuidOb|err] p]; [|auto 10].
  simpl. destruct (Insert _ _ _) as [[err|] db]; [simpl; auto 10|].
  destruct (try_send _ _); simpl; auto 10.
Qed.

(** X6: the admitting path, for completeness: with a worker parked on the open
    queue the request is handed over with its fresh id, marked in the
    tracking map, and the id comes back as a string. *)
Lemma admitted_request_tracked (m : Manager) (reqInput : ReplayWorkerRequest)
    (uuidOb : UUID) (p : Provider) (db : Store) (parked : nat) :
  validate (ReqJob reqInput) (replaySpecRepoFac m) reqInput = None ->
  NewUUID (uuidProvider m) = (Ok uuidOb, p) ->
  Insert (ReqJob reqInput)
         {| ID := uuidOb; Job := ReqJob reqInput; StartDate := ReqStart reqInput;
            EndDate := ReqEnd reqInput; Status := ReplayStatusAccepted |}
         (replaySpecRepoFac m) = (None, db) ->
  chan_closed (requestQ m) = false ->
  recvq (requestQ m) = S parked ->
  let '(out, reqInput', m') := Replay m reqInput in
  out = Return (UUID_String uuidOb) None /\
  reqInput' = set_ReqID reqInput uuidOb /\
  replaySpecRepoFac m' = db /\
  requestMap m' !! uuidOb = Some true /\
  handed (requestQ m') = (handed (requestQ m) ++ [reqInput'])%list /\
  recvq (requestQ m') = parked.
Proof.
  intros Hvalid Hid Hinsert Hopen Hparked.
  unfold Replay, try_send. rewrite Hvalid, Hid. simpl.
  rewrite Hinsert, Hopen, Hparked. simpl.
  rewrite lookup_insert_eq. auto 10.
Qed.

End Admission.

(** One worker, busy: the record of the request is stored as accepted and
    the caller gets [ErrRequestQueueFull]. *)
Lemma queue_full_keeps_record_witness :
  let '(out, _, m') :=
    @Replay InMemory.world (InMemory.manager InMemory.empty_store [Ok 7%N] 0)
            (InMemory.request InMemory.job_x 0 86400) in
  out = Return "" (Some ErrRequestQueueFull) /\
  replaySpecRepoFac m' =
    InMemory.mkMemStore [mkReplaySpec 7%N InMemory.job_x (utc 0) (utc 86400) ReplayStatusAccepted]
                        None None /\
  requestMap m' = ∅ /\
  requestQ m' = mkChan false 0 [].
Proof.
  apply (@queue_full_keeps_record InMemory.world
           (InMemory.manager InMemory.empty_store [Ok 7%N] 0)
           (InMemory.request InMemory.job_x 0 86400) 7%N []
           (InMemory.mkMemStore
              [mkReplaySpec 7%N InMemory.job_x (utc 0) (utc 86400) ReplayStatusAccepted] None None));
    reflexivity.
Defined.

(** C3, as worded, fails on a closed queue: nobody waits on it either, and
    the send panics where the error was to be returned. *)
Lemma no_slot_on_closed_queue_panics :
  ~ @no_slot_means_queue_full InMemory.world
      (@mkManager InMemory.world 1 1 [Ok 7%N] (mkConfig 1 5) (mkChan true 0 []) ∅
                  InMemory.empty_store)
      (InMemory.request InMemory.job_x 0 86400).
Proof.
  intros Hclaim.
  assert (Panic = Return "" (Some ErrRequestQueueFull)) as Habsurd;
    [|discriminate Habsurd].
  apply (Hclaim 7%N []
           (InMemory.mkMemStore
              [mkReplaySpec 7%N InMemory.job_x (utc 0) (utc 86400) ReplayStatusAccepted]
              None None));
    reflexivity.
Qed.

(** A store that refuses the insert, in front of an idle worker: the error
    of the store comes back and the worker gets nothing. *)
Lemma insert_accepted_record_witness :
  exists replay : ReplaySpec,
    (ID replay = 7%N /\ Job replay = InMemory.job_x /\
     StartDate replay = utc 0 /\ EndDate replay = utc 86400 /\
     Status replay = ReplayStatusAccepted) /\
    let m := InMemory.manager
               (InMemory.mkMemStore [] (Some (errors_New "store: disk full")) None)
               [Ok 7%N] 1 in
    let '(out, reqInput', m') :=
      @Replay InMemory.world m (InMemory.request InMemory.job_x 0 86400) in
    ReqID reqInput' = ID replay /\
    replaySpecRepoFac m' =
      (@Insert InMemory.world InMemory.job_x replay (replaySpecRepoFac m)).2 /\
    (forall err,
        (@Insert InMemory.world InMemory.job_x replay (replaySpecRepoFac m)).1 = Some err ->
        out = Return "" (Some err) /\
        requestQ m' = requestQ m /\
        requestMap m' = requestMap m /\
        handed (requestQ m') = handed (requestQ m)).
Proof.
  apply (@insert_accepted_record InMemory.world
           (InMemory.manager
              (InMemory.mkMemStore [] (Some (errors_New "store: disk full")) None)
              [Ok 7%N] 1)
           (InMemory.request InMemory.job_x 0 86400) 7%N []);
    reflexivity.
Defined.

(** C9, as worded, fails: with the worker busy, and likewise with a store
    that refuses the insert, [Replay] returns an error and the request that
    came without id leaves with id 7; and a request that comes with id 5
    leaves an admitting call with id 7. *)
Lemma id_set_although_replay_failed :
  ~ @id_unset_on_error InMemory.world
      (InMemory.manager InMemory.empty_store [Ok 7%N] 0)
      (InMemory.request InMemory.job_x 0 86400) /\
  ~ @id_unset_on_error InMemory.world
      (InMemory.manager
         (InMemory.mkMemStore [] (Some (errors_New "store: disk full")) None) [Ok 7%N] 1)
      (InMemory.request InMemory.job_x 0 86400) /\
  ~ @id_never_reassigned InMemory.world
      (InMemory.manager InMemory.empty_store [Ok 7%N] 1)
      (set_ReqID (InMemory.request InMemory.job_x 0 86400) 5%N).
Proof.
  split; [|split]; intros Hclaim.
  - assert (7%N = uuid_Nil) as Habsurd; [|discriminate Habsurd].
    apply Hclaim; [reflexivity|].
    exists "", ErrRequestQueueFull. reflexivity.
  - assert (7%N = uuid_Nil) as Habsurd; [|discriminate Habsurd].
    apply Hclaim; [reflexivity|].
    exists "", (errors_New "store: disk full"). reflexivity.
  - assert (7%N = 5%N) as Habsurd; [|discriminate Habsurd].
    apply Hclaim. discriminate.
Qed.

(** ** The worker pool *)

Section Pool.

Context `{Collab : Collaborators}.

(** The loop of [Init] from [i] on: given enough turns it ends, having
    started one worker for each [i] below [NumWorkers] and changed nothing
    else. *)
Lemma Init_loop_spawns (fuel : nat) :
  forall (i : Z) (m : Manager),
    (Z.to_nat (NumWorkers (config m) - i) <= fuel)%nat ->
    exists m',
      Init_loop fuel i m = Some m' /\
      workers m' = (workers m + Z.to_nat (NumWorkers (config m) - i))%nat /\
      wg m' = (wg m + Z.to_nat (NumWorkers (config m) - i))%nat /\
      config m' = config m.
Proof.
  induction fuel as [|fuel IH]; intros i m Hfuel; simpl.
  - destruct (Z.ltb_spec i (NumWorkers (config m))) as [Hlt|Hge]; [lia|].
    exists m. replace (Z.to_nat (NumWorkers (config m) - i)) with 0%nat by lia.
    rewrite !Nat.add_0_r. auto.
  - destruct (Z.ltb_spec i (NumWorkers (config m))) as [Hlt|Hge].
    + destruct (IH (i + 1)%Z (spawn m)) as (m' & Hloop & Hworkers & Hwg & Hconfig).
      { simpl. lia. }
      exists m'. simpl in Hworkers, Hwg, Hconfig.
      split; [exact Hloop|]. split; [lia|]. split; [lia|exact Hconfig].
    + exists m. replace (Z.to_nat (NumWorkers (config m) - i)) with 0%nat by lia.
      rewrite !Nat.add_0_r. auto.
Qed.

Lemma Init_spawns (m : Manager) :
  exists m',
    Init m = Some m' /\
    workers m' = (workers m + Z.to_nat (NumWorkers (config m)))%nat /\
    wg m' = (wg m + Z.to_nat (NumWorkers (config m)))%nat /\
    config m' = config m.
Proof.
  destruct (Init_loop_spawns (Z.to_nat (NumWorkers (config m))) 0 m)
    as (m' & Hloop & Hworkers & Hwg & Hconfig); [lia|].
  rewrite Z.sub_0_r in Hworkers, Hwg. now exists m'.
Qed.

(** C10: [NewManager] returns a manager on which [Init] has already run,
    with one worker per unit of [NumWorkers] started; [Init] called on it
    once more ends too and leaves twice that many workers, that is
    2 x [NumWorkers] for a pool size that is not negative. *)
Theorem NewManager_already_initialised (replaySpecRepoFac : Store)
    (uuidProvider : Provider) (config : ReplayManagerConfig) :
  exists mgr mgr',
    NewManager replaySpecRepoFac uuidProvider config = Some mgr /\
    workers mgr = Z.to_nat (NumWorkers config) /\
    Init mgr = Some mgr' /\
    workers mgr' = (2 * Z.to_nat (NumWorkers config))%nat /\
    (0 <= NumWorkers config -> Z.of_nat (workers mgr') = 2 * NumWorkers config)%Z.
Proof.
  unfold NewManager.
  destruct (Init_spawns
              (mkManager 0 0 uuidProvider config make_chan ∅ replaySpecRepoFac))
    as (mgr & Hnew & Hworkers & _ & Hconfig).
  destruct (Init_spawns mgr) as (mgr' & Hinit & Hworkers' & _ & _).
  simpl in Hworkers, Hconfig. rewrite Hconfig in Hworkers'.
  exists mgr, mgr'. repeat split; try assumption; lia.
Qed.

End Pool.

(** A pool of three: three workers after [NewManager], six after [Init]. *)
Lemma NewManager_already_initialised_witness :
  exists mgr mgr',
    @NewManager InMemory.world InMemory.empty_store [] (mkConfig 3 5) = Some mgr /\
    workers mgr = 3%nat /\
    Init mgr = Some mgr' /\
    workers mgr' = 6%nat /\
    Z.of_nat (workers mgr') = 6%Z.
Proof.
  destruct (@NewManager_already_initialised InMemory.world InMemory.empty_store []
              (mkConfig 3 5))
    as (mgr & mgr' & Hnew & Hworkers & Hinit & Hworkers' & Hpool).
  exists mgr, mgr'. repeat split; try assumption.
  exact (Hpool ltac:(simpl; lia)).
Defined.

(** A request on "x" over two days while a replay of "x" over the same days
    is in progress: the conflict comes back, the request keeps no id, and the
    manager, idle worker included, is as before. *)
Lemma validator_runs_before_effects_witness :
  let m := InMemory.manager
             (InMemory.mkMemStore
                [mkReplaySpec 2%N InMemory.job_x (utc 0) (utc 86400) ReplayStatusInProgress] None None)
             [Ok 7%N] 1 in
  @Replay InMemory.world m (InMemory.request InMemory.job_x 0 86400) =
  (Return "" (Some conflict), InMemory.request InMemory.job_x 0 86400, m).
Proof.
  apply (proj1 (@validator_runs_before_effects InMemory.world
                  (InMemory.manager
                     (InMemory.mkMemStore
                        [mkReplaySpec 2%N InMemory.job_x (utc 0) (utc 86400) ReplayStatusInProgress]
                        None None)
                     [Ok 7%N] 1)
                  (InMemory.request InMemory.job_x 0 86400))).
  reflexivity.
Defined.

(** ** More on the run comparison *)

(** X1: the run comparison looks at the two sets of runs only: neither the order
    in which [Values] lists the runs nor repetitions change its answer. *)
Theorem run_comparison_ignores_order (activeNode activeNode' reqNode reqNode' : TreeNode) :
  (forall run, In run (Runs_Values activeNode) <-> In run (Runs_Values activeNode')) ->
  (forall run, In run (Runs_Values reqNode) <-> In run (Runs_Values reqNode')) ->
  checkAnyConflictedRuns activeNode reqNode = checkAnyConflictedRuns activeNode' reqNode'.
Proof.
  intros Hact Hreq. unfold checkAnyConflictedRuns.
  destruct (conflictedRuns_cases (Runs_Values activeNode) (Runs_Values reqNode)) as [Hn|Hs].
  - rewrite Hn. symmetry. apply conflictedRuns_None.
    intros run Ha Hr.
    apply (proj1 (conflictedRuns_None _ _) Hn run); [now apply Hact|now apply Hreq].
  - rewrite Hs. symmetry. apply conflictedRuns_Some.
    apply conflictedRuns_Some in Hs as (run & Ha & Hr).
    exists run. split; [now apply Hact|now apply Hreq].
Qed.

Lemma run_comparison_ignores_order_witness :
  checkAnyConflictedRuns (mkTreeNode "x" [utc 0; utc 86400]) (mkTreeNode "x" [utc 86400; utc 172800]) =
  checkAnyConflictedRuns (mkTreeNode "y" [utc 86400; utc 0; utc 86400])
                         (mkTreeNode "z" [utc 172800; utc 86400]).
Proof.
  apply run_comparison_ignores_order; simpl; intros run; tauto.
Defined.

(** X2: the run comparison is symmetric: which of the two nodes is the active one
    does not matter. *)
Theorem run_comparison_symmetric (activeNode reqNode : TreeNode) :
  checkAnyConflictedRuns activeNode reqNode = checkAnyConflictedRuns reqNode activeNode.
Proof.
  unfold checkAnyConflictedRuns.
  destruct (conflictedRuns_cases (Runs_Values activeNode) (Runs_Values reqNode)) as [Hn|Hs].
  - rewrite Hn. symmetry. apply conflictedRuns_None.
    intros run Hr Ha. exact (proj1 (conflictedRuns_None _ _) Hn run Ha Hr).
  - rewrite Hs. symmetry. apply conflictedRuns_Some.
    apply conflictedRuns_Some in Hs as (run & Ha & Hr). now exists run.
Qed.

(** ** Which pair of nodes decides *)

Lemma conflictedDag_first_match (activeNode reqNode : TreeNode)
    (before after : list TreeNode) :
  (forall q, In q before -> GetName activeNode <> GetName q) ->
  GetName activeNode = GetName reqNode ->
  conflictedDag activeNode (before ++ reqNode :: after) =
  Some (checkAnyConflictedRuns activeNode reqNode).
Proof.
  intros Hbefore Hname.
  induction before as [|q before IH]; simpl.
  - now rewrite decide_True.
  - rewrite decide_False by (apply Hbefore; now left).
    apply IH. intros q' Hq'. apply Hbefore. now right.
Qed.

(** X3: [checkAnyConflictedDags] answers with the run comparison of one pair: the
    first active node that has a namesake among the requested nodes, and the
    first requested node of that name.  Nodes after them are not looked
    at. *)
Theorem first_same_name_pair_decides (activeNode reqNode : TreeNode)
    (activeBefore activeAfter reqBefore reqAfter : list TreeNode) :
  (forall a q, In a activeBefore -> In q (reqBefore ++ reqNode :: reqAfter) ->
               GetName a <> GetName q) ->
  (forall q, In q reqBefore -> GetName activeNode <> GetName q) ->
  GetName activeNode = GetName reqNode ->
  checkAnyConflictedDags (activeBefore ++ activeNode :: activeAfter)
                         (reqBefore ++ reqNode :: reqAfter) =
  checkAnyConflictedRuns activeNode reqNode.
Proof.
  intros Hbefore Hreq Hname.
  induction activeBefore as [|a activeBefore IH]; simpl.
  - now rewrite conflictedDag_first_match.
  - rewrite conflictedDag_no_name.
    + apply IH. intros a' q Ha'. apply Hbefore. now right.
    + intros q Hq. apply Hbefore; [now left|exact Hq].
Qed.

(** Active tree w, x, y against requested tree v, x, y: the pair of "x" nodes
    decides. *)
Lemma first_same_name_pair_decides_witness :
  checkAnyConflictedDags
    ([mkTreeNode "w" [utc 0]] ++ mkTreeNode "x" [utc 0] :: [mkTreeNode "y" [utc 86400]])
    ([mkTreeNode "v" [utc 0]] ++ mkTreeNode "x" [utc 86400] :: [mkTreeNode "y" [utc 86400]])
  = checkAnyConflictedRuns (mkTreeNode "x" [utc 0]) (mkTreeNode "x" [utc 86400]).
Proof.
  apply first_same_name_pair_decides.
  - intros a q [<-|[]] Hq. simpl in Hq.
    destruct Hq as [<-|[<-|[<-|[]]]]; simpl; discriminate.
  - intros q [<-|[]]. simpl. discriminate.
  - reflexivity.
Defined.

(** X4: a tree compared with itself conflicts exactly when its first node has a
    run: the first node meets itself first. *)
Theorem same_tree_conflicts_on_first_node (node : TreeNode) (others : list TreeNode) :
  (Runs_Values node <> [] ->
   checkAnyConflictedDags (node :: others) (node :: others) = Some conflict) /\
  (Runs_Values node = [] ->
   checkAnyConflictedDags (node :: others) (node :: others) = None).
Proof.
  simpl. rewrite decide_True by reflexivity. unfold checkAnyConflictedRuns. split.
  - intros Hruns. apply conflictedRuns_Some.
    destruct (Runs_Values node) as [|run runs]; [contradiction|].
    exists run. split; now left.
  - intros ->. reflexivity.
Qed.

Lemma same_tree_conflicts_on_first_node_witness :
  checkAnyConflictedDags
    [mkTreeNode "x" [utc 0; utc 86400]; mkTreeNode "y" [utc 0; utc 86400]]
    [mkTreeNode "x" [utc 0; utc 86400]; mkTreeNode "y" [utc 0; utc 86400]] = Some conflict /\
  checkAnyConflictedDags
    [mkTreeNode "x" []; mkTreeNode "y" [utc 0; utc 86400]]
    [mkTreeNode "x" []; mkTreeNode "y" [utc 0; utc 86400]] = None.
Proof.
  split.
  - apply (proj1 (same_tree_conflicts_on_first_node
                    (mkTreeNode "x" [utc 0; utc 86400]) [mkTreeNode "y" [utc 0; utc 86400]])).
    discriminate.
  - apply (proj2 (same_tree_conflicts_on_first_node
                    (mkTreeNode "x" []) [mkTreeNode "y" [utc 0; utc 86400]])).
    reflexivity.
Defined.

(** ** Where an error of the validator comes from *)

Section ValidatorErrors.

Context `{Collab : Collaborators}.

(** X5: an error of [validate] is one of four: the error of building the tree of
    the request; the error of the query, other than "not found"; the error
    of building the tree of the first active record; or the conflict, and
    then a node of the first active record's tree and a node of the
    request's tree have the same name and a run in common. *)
Theorem validate_error_origin (job : JobSpec) (db : Store)
    (reqInput : ReplayWorkerRequest) (err : error) :
  validate job db reqInput = Some err ->
  prepareTree reqInput = Err err \/
  (GetByStatus job [ReplayStatusInProgress; ReplayStatusAccepted] db = Err err /\
   err <> ErrResourceNotFound) \/
  (exists activeSpec others,
      GetByStatus job [ReplayStatusInProgress; ReplayStatusAccepted] db
        = Ok (activeSpec :: others) /\
      prepareTree
        {| ReqID := ID activeSpec; ReqJob := Job activeSpec;
           ReqStart := StartDate activeSpec; ReqEnd := EndDate activeSpec;
           ReqProject := ReqProject reqInput;
           ReqJobSpecMap := ReqJobSpecMap reqInput |} = Err err) \/
  (err = conflict /\
   exists activeSpec others reqReplayTree activeTree activeNode reqNode run,
      prepareTree reqInput = Ok reqReplayTree /\
      GetByStatus job [ReplayStatusInProgress; ReplayStatusAccepted] db
        = Ok (activeSpec :: others) /\
      prepareTree
        {| ReqID := ID activeSpec; ReqJob := Job activeSpec;
           ReqStart := StartDate activeSpec; ReqEnd := EndDate activeSpec;
           ReqProject := ReqProject reqInput;
           ReqJobSpecMap := ReqJobSpecMap reqInput |} = Ok activeTree /\
      In activeNode (GetAllNodes activeTree) /\
      In reqNode (GetAllNodes reqReplayTree) /\
      GetName activeNode = GetName reqNode /\
      In run (Runs_Values activeNode) /\ In run (Runs_Values reqNode)).
Proof.
  unfold validate, statusToValidate, validateReplayJobsConflict.
  destruct (prepareTree reqInput) as [reqReplayTree|e] eqn:Hreq.
  2:{ intros [= ->]. now left. }
  destruct (GetByStatus job _ db) as [[|activeSpec others]|e] eqn:Hquery.
  - discriminate.
  - destruct (prepareTree
                {| ReqID := ID activeSpec; ReqJob := Job activeSpec;
                   ReqStart := StartDate activeSpec; ReqEnd := EndDate activeSpec;
                   ReqProject := ReqProject reqInput;
                   ReqJobSpecMap := ReqJobSpecMap reqInput |})
      as [activeTree|e] eqn:Hactive.
    + intros Hdags. right. right. right.
      destruct (checkAnyConflictedDags_sound _ _ _ Hdags)
        as (-> & activeNode & reqNode & run & Ha & Hq & Hname & Hra & Hrq).
      split; [reflexivity|].
      exists activeSpec, others, reqReplayTree, activeTree, activeNode, reqNode, run.
      auto 10.
    + intros [= ->]. right. right. left. exists activeSpec, others. auto.
  - destruct (decide (e = ErrResourceNotFound)) as [_|Hne]; [discriminate|].
    intros [= ->]. right. left. auto.
Qed.

End ValidatorErrors.

(** The conflict of a request on "x" with the replay of "x" in progress over
    the same days comes from two nodes of one name with a common run. *)
Lemma validate_error_origin_witness :
  exists (activeNode reqNode : TreeNode) (run : Time),
    GetName activeNode = GetName reqNode /\
    In run (Runs_Values activeNode) /\ In run (Runs_Values reqNode).
Proof.
  destruct (@validate_error_origin InMemory.world InMemory.job_x
              (InMemory.mkMemStore
                 [mkReplaySpec 2%N InMemory.job_x (utc 0) (utc 86400) ReplayStatusInProgress] None None)
              (InMemory.request InMemory.job_x 0 86400) conflict eq_refl)
    as [H|[[H _]|[(s & o & _ & H)|(_ & s & o & t & t' & a & q & run & _ & _ & _ & _ & _ & H)]]].
  - discriminate H.
  - discriminate H.
  - simpl in H. unfold InMemory.mem_prepareTree in H. simpl in H.
    destruct (unixNano (EndDate s) <? unixNano (StartDate s))%Z; discriminate H.
  - now exists a, q, run.
Defined.

(** One idle worker: the request is handed over as request 7, tracked, and
    "7" comes back. *)
Lemma admitted_request_tracked_witness :
  let m := InMemory.manager InMemory.empty_store [Ok 7%N] 1 in
  let '(out, reqInput', m') :=
    @Replay InMemory.world m (InMemory.request InMemory.job_x 0 86400) in
  out = Return "7" None /\
  reqInput' = set_ReqID (InMemory.request InMemory.job_x 0 86400) 7%N /\
  replaySpecRepoFac m' =
    InMemory.mkMemStore [mkReplaySpec 7%N InMemory.job_x (utc 0) (utc 86400) ReplayStatusAccepted]
                        None None /\
  requestMap m' !! 7%N = Some true /\
  handed (requestQ m') = (handed (requestQ m) ++ [reqInput'])%list /\
  recvq (requestQ m') = 0%nat.
Proof.
  apply (@admitted_request_tracked InMemory.world
           (InMemory.manager InMemory.empty_store [Ok 7%N] 1)
           (InMemory.request InMemory.job_x 0 86400) 7%N []
           (InMemory.mkMemStore
              [mkReplaySpec 7%N InMemory.job_x (utc 0) (utc 86400) ReplayStatusAccepted] None None)
           0%nat);
    reflexivity.
Defined.

(** ** The other ways out of [Replay] *)

Section Outcomes.

Context `{Collab : Collaborators}.

(** X7: on a closed queue a request that passes validation, id generation and
    insert makes [Replay] panic in the send: the record is in the store by
    then, the tracking map and the queue are as before. *)
Theorem replay_on_closed_queue_panics (m : Manager) (reqInput : ReplayWorkerRequest)
    (uuidOb : UUID) (p : Provider) (db : Store) :
  validate (ReqJob reqInput) (replaySpecRepoFac m) reqInput = None ->
  NewUUID (uuidProvider m) = (Ok uuidOb, p) ->
  Insert (ReqJob reqInput)
         {| ID := uuidOb; Job := ReqJob reqInput; StartDate := ReqStart reqInput;
            EndDate := ReqEnd reqInput; Status := ReplayStatusAccepted |}
         (replaySpecRepoFac m) = (None, db) ->
  chan_closed (requestQ m) = true ->
  let '(out, _, m') := Replay m reqInput in
  out = Panic /\
  replaySpecRepoFac m' = db /\
  requestMap m' = requestMap m /\
  requestQ m' = requestQ m.
Proof.
  intros Hvalid Hid Hinsert Hclosed.
  unfold Replay, try_send. rewrite Hvalid, Hid. simpl.
  rewrite Hinsert, Hclosed. auto.
Qed.

(** X8: when the identity provider fails, [Replay] returns its error; the store,
    the queue, the tracking map and the request are untouched. *)
Theorem uuid_failure_changes_nothing (m : Manager) (reqInput : ReplayWorkerRequest)
    (err : error) (p : Provider) :
  validate (ReqJob reqInput) (replaySpecRepoFac m) reqInput = None ->
  NewUUID (uuidProvider m) = (Err err, p) ->
  let '(out, reqInput', m') := Replay m reqInput in
  out = Return "" (Some err) /\
  reqInput' = reqInput /\
  replaySpecRepoFac m' = replaySpecRepoFac m /\
  requestQ m' = requestQ m /\
  requestMap m' = requestMap m.
Proof.
  intros Hvalid Hid. unfold Replay. rewrite Hvalid, Hid. auto.
Qed.

(** X9: a call that returns without error has done all of it: the validator
    passed, the provider gave the id that comes back as a string, the
    accepted record went into the store, a worker that was waiting on the
    open queue took the request, and the id is marked in the tracking map. *)
Theorem returned_id_means_admitted (m m' : Manager)
    (reqInput reqInput' : ReplayWorkerRequest) (id : string) :
  Replay m reqInput = (Return id None, reqInput', m') ->
  exists uuidOb : UUID,
    validate (ReqJob reqInput) (replaySpecRepoFac m) reqInput = None /\
    NewUUID (uuidProvider m) = (Ok uuidOb, uuidProvider m') /\
    Insert (ReqJob reqInput)
           {| ID := uuidOb; Job := ReqJob reqInput; StartDate := ReqStart reqInput;
              EndDate := ReqEnd reqInput; Status := ReplayStatusAccepted |}
           (replaySpecRepoFac m) = (None, replaySpecRepoFac m') /\
    id = UUID_String uuidOb /\
    reqInput' = set_ReqID reqInput uuidOb /\
    chan_closed (requestQ m) = false /\
    recvq (requestQ m) = S (recvq (requestQ m')) /\
    handed (requestQ m') = (handed (requestQ m) ++ [reqInput'])%list /\
    requestMap m' = <[uuidOb := true]> (requestMap m).
Proof.
  unfold Replay, try_send.
  destruct (validate _ _ _) as [err|]; [discriminate|].
  destruct (NewUUID _) as [[uuidOb|err] p]; [|discriminate].
  simpl. destruct (Insert _ _ _) as [[err|] db] eqn:Hinsert; [discriminate|].
  destruct (chan_closed (requestQ m)); [discriminate|].
  destruct (recvq (requestQ m)) as [|n]; [discriminate|].
  intros [= <- <- <-]. exists uuidOb. simpl. repeat split. exact Hinsert.
Qed.

(** X10: a call that does not return an id, whether it returns an error or
    panics, leaves the queue and the tracking map as they were. *)
Theorem failed_replay_keeps_queue_and_map (m : Manager) (reqInput : ReplayWorkerRequest) :
  let '(out, _, m') := Replay m reqInput in
  (forall id, out <> Return id None) ->
  requestQ m' = requestQ m /\ requestMap m' = requestMap m.
Proof.
  unfold Replay.
  destruct (validate _ _ _) as [err|]; [auto|].
  destruct (NewUUID _) as [[uuidOb|err] p]; [|auto].
  simpl. destruct (Insert _ _ _) as [[err|] db]; [auto|].
  destruct (try_send _ _); simpl; auto.
  intros Hout. now destruct (Hout (UUID_String uuidOb)).
Qed.

(** X11: [Replay] never touches the wait group, the number of workers or the
    configuration, neither closes nor reopens the queue, takes at most one
    waiting worker, and only ever appends to what has been handed over. *)
Theorem Replay_frame (m : Manager) (reqInput : ReplayWorkerRequest) :
  let '(_, _, m') := Replay m reqInput in
  wg m' = wg m /\ workers m' = workers m /\ config m' = config m /\
  chan_closed (requestQ m') = chan_closed (requestQ m) /\
  (recvq (requestQ m') <= recvq (requestQ m) <= S (recvq (requestQ m')))%nat /\
  exists sent, handed (requestQ m') = (handed (requestQ m) ++ sent)%list /\
               (length sent <= 1)%nat.
Proof.
  assert (exists sent, handed (requestQ m) = (handed (requestQ m) ++ sent)%list /\
                       (length sent <= 1)%nat) as Hsame
    by (exists []; rewrite app_nil_r; simpl; auto).
  unfold Replay, try_send.
  destruct (validate _ _ _) as [err|]; [simpl; auto 10|].
  destruct (NewUUID _) as [[uuidOb|err] p]; [|simpl; auto 10].
  simpl. destruct (Insert _ _ _) as [[err|] db]; [simpl; auto 10|].
  destruct (chan_closed (requestQ m)) eqn:Hclosed; [simpl; rewrite Hclosed; auto 10|].
  destruct (recvq (requestQ m)) as [|n] eqn:Hrecvq; simpl.
  - rewrite Hclosed, Hrecvq. auto 10.
  - repeat split; auto. eexists. split; [reflexivity|simpl; lia].
Qed.

End Outcomes.

(** A manager whose queue has been closed, with an empty store. *)
Lemma replay_on_closed_queue_panics_witness :
  let m := @mkManager InMemory.world 1 1 [Ok 7%N] (mkConfig 1 5) (mkChan true 0 []) ∅
                      InMemory.empty_store in
  let '(out, _, m') :=
    @Replay InMemory.world m (InMemory.request InMemory.job_x 0 86400) in
  out = Panic /\
  replaySpecRepoFac m' =
    InMemory.mkMemStore [mkReplaySpec 7%N InMemory.job_x (utc 0) (utc 86400) ReplayStatusAccepted]
                        None None /\
  requestMap m' = requestMap m /\
  requestQ m' = requestQ m.
Proof.
  apply (@replay_on_closed_queue_panics InMemory.world
           (@mkManager InMemory.world 1 1 [Ok 7%N] (mkConfig 1 5) (mkChan true 0 []) ∅
                       InMemory.empty_store)
           (InMemory.request InMemory.job_x 0 86400) 7%N []
           (InMemory.mkMemStore
              [mkReplaySpec 7%N InMemory.job_x (utc 0) (utc 86400) ReplayStatusAccepted] None None));
    reflexivity.
Defined.

(** A provider with nothing left to give. *)
Lemma uuid_failure_changes_nothing_witness :
  let m := InMemory.manager InMemory.empty_store [] 1 in
  let '(out, reqInput', m') :=
    @Replay InMemory.world m (InMemory.request InMemory.job_x 0 86400) in
  out = Return "" (Some (errors_New "uuid: no entropy")) /\
  reqInput' = InMemory.request InMemory.job_x 0 86400 /\
  replaySpecRepoFac m' = replaySpecRepoFac m /\
  requestQ m' = requestQ m /\
  requestMap m' = requestMap m.
Proof.
  apply (@uuid_failure_changes_nothing InMemory.world
           (InMemory.manager InMemory.empty_store [] 1)
           (InMemory.request InMemory.job_x 0 86400)
           (errors_New "uuid: no entropy") []);
    reflexivity.
Defined.

Lemma returned_id_means_admitted_witness :
  exists uuidOb : UUID,
    uuidOb = 7%N /\
    @Insert InMemory.world InMemory.job_x
       (mkReplaySpec uuidOb InMemory.job_x (utc 0) (utc 86400) ReplayStatusAccepted)
       InMemory.empty_store
    = (None,
       InMemory.mkMemStore
         [mkReplaySpec 7%N InMemory.job_x (utc 0) (utc 86400) ReplayStatusAccepted] None None).
Proof.
  destruct (@returned_id_means_admitted InMemory.world
              (InMemory.manager InMemory.empty_store [Ok 7%N] 1)
              (@mkManager InMemory.world 1 1 [] (mkConfig 1 5)
                 (mkChan false 0 [set_ReqID (InMemory.request InMemory.job_x 0 86400) 7%N])
                 (<[7%N := true]> ∅)
                 (InMemory.mkMemStore
                    [mkReplaySpec 7%N InMemory.job_x (utc 0) (utc 86400) ReplayStatusAccepted]
                    None None))
              (InMemory.request InMemory.job_x 0 86400)
              (set_ReqID (InMemory.request InMemory.job_x 0 86400) 7%N)
              "7" eq_refl)
    as (uuidOb & _ & Hid & Hinsert & _).
  exists uuidOb. split; [|exact Hinsert].
  simpl in Hid. now injection Hid as ->.
Defined.

(** The busy worker again: the queue and the empty tracking map stay. *)
Lemma failed_replay_keeps_queue_and_map_witness :
  let m := InMemory.manager InMemory.empty_store [Ok 7%N] 0 in
  requestQ (@Replay InMemory.world m (InMemory.request InMemory.job_x 0 86400)).2
    = requestQ m /\
  requestMap (@Replay InMemory.world m (InMemory.request InMemory.job_x 0 86400)).2
    = requestMap m.
Proof.
  apply (@failed_replay_keeps_queue_and_map InMemory.world
           (InMemory.manager InMemory.empty_store [Ok 7%N] 0)
           (InMemory.request InMemory.job_x 0 86400)).
  intros id. discriminate.
Defined.

(** ** [Init] in closed form *)

Section InitClosedForm.

Context `{Collab : Collaborators}.

Lemma Init_loop_closed_form (fuel : nat) :
  forall (i : Z) (m : Manager),
    (Z.to_nat (NumWorkers (config m) - i) <= fuel)%nat ->
    Init_loop fuel i m =
    Some (mkManager (wg m + Z.to_nat (NumWorkers (config m) - i))
                    (workers m + Z.to_nat (NumWorkers (config m) - i))
                    (uuidProvider m) (config m) (requestQ m) (requestMap m)
                    (replaySpecRepoFac m)).
Proof.
  induction fuel as [|fuel IH]; intros i m Hfuel; simpl.
  - destruct (Z.ltb_spec i (NumWorkers (config m))) as [Hlt|Hge]; [lia|].
    replace (Z.to_nat (NumWorkers (config m) - i)) with 0%nat by lia.
    rewrite !Nat.add_0_r. now destruct m.
  - destruct (Z.ltb_spec i (NumWorkers (config m))) as [Hlt|Hge].
    + rewrite IH by (simpl; lia). simpl. do 2 f_equal; lia.
    + replace (Z.to_nat (NumWorkers (config m) - i)) with 0%nat by lia.
      rewrite !Nat.add_0_r. now destruct m.
Qed.

Lemma Init_closed_form (m : Manager) :
  Init m =
  Some (mkManager (wg m + Z.to_nat (NumWorkers (config m)))
                  (workers m + Z.to_nat (NumWorkers (config m)))
                  (uuidProvider m) (config m) (requestQ m) (requestMap m)
                  (replaySpecRepoFac m)).
Proof.
  unfold Init. rewrite Init_loop_closed_form by lia. now rewrite Z.sub_0_r.
Qed.

(** X12: [Init] always returns; it adds [NumWorkers] (none if that is negative) to
    the wait group and to the started workers and leaves every other field
    alone.  With [NumWorkers] at most zero it changes nothing. *)
Theorem Init_starts_NumWorkers (m : Manager) :
  Init m =
  Some (mkManager (wg m + Z.to_nat (NumWorkers (config m)))
                  (workers m + Z.to_nat (NumWorkers (config m)))
                  (uuidProvider m) (config m) (requestQ m) (requestMap m)
                  (replaySpecRepoFac m)) /\
  ((NumWorkers (config m) <= 0)%Z -> Init m = Some m).
Proof.
  split; [apply Init_closed_form|].
  intros Hnone. rewrite Init_closed_form.
  replace (Z.to_nat (NumWorkers (config m))) with 0%nat by lia.
  rewrite !Nat.add_0_r. now destruct m.
Qed.

(** X13: a manager fresh from [NewManager]: the wait group counts the started
    workers, [NumWorkers] of them or none if that is negative; the queue is
    open and empty with nobody waiting yet, no request is tracked, and
    provider, configuration and store are the arguments. *)
Theorem NewManager_fresh (db : Store) (provider : Provider) (cfg : ReplayManagerConfig) :
  NewManager db provider cfg =
  Some (mkManager (Z.to_nat (NumWorkers cfg)) (Z.to_nat (NumWorkers cfg)) provider cfg
                  (mkChan false 0 []) ∅ db).
Proof.
  unfold NewManager. now rewrite Init_closed_form.
Qed.

End InitClosedForm.

(** A pool size of minus two starts nothing. *)
Lemma Init_starts_NumWorkers_witness :
  let m := @mkManager InMemory.world 0 0 [] (mkConfig (-2) 5) make_chan ∅
                      InMemory.empty_store in
  Init m = Some m.
Proof.
  apply (proj2 (@Init_starts_NumWorkers InMemory.world
                  (@mkManager InMemory.world 0 0 [] (mkConfig (-2) 5) make_chan ∅
                              InMemory.empty_store))).
  simpl. lia.
Defined.

(** ** Invariants of the pool *)

Section PoolInvariants.

Context `{Collab : Collaborators}.

(** The two shapes of a call of [Replay] that returns: nothing happens to
    queue and map, or the request goes to a waiting worker and is marked. *)
Lemma Replay_shape (m m' : Manager) (reqInput reqInput' : ReplayWorkerRequest)
    (id : string) (err : option error) :
  Replay m reqInput = (Return id err, reqInput', m') ->
  (wg m' = wg m /\ workers m' = workers m /\ config m' = config m) /\
  ((err <> None /\ requestQ m' = requestQ m /\ requestMap m' = requestMap m) \/
   (err = None /\ chan_closed (requestQ m) = false /\
    exists n, recvq (requestQ m) = S n /\
              requestQ m' = mkChan false n (handed (requestQ m) ++ [reqInput'])%list /\
              requestMap m' = <[ReqID reqInput' := true]> (requestMap m))).
Proof.
  unfold Replay, try_send.
  destruct (validate _ _ _) as [e|].
  { intros [= <- <- <- <-]. split; [auto|]. left. auto. }
  destruct (NewUUID _) as [[uuidOb|e] p].
  2:{ intros [= <- <- <- <-]. split; [simpl; auto|]. left. simpl. auto. }
  simpl. destruct (Insert _ _ _) as [[e|] db].
  { intros [= <- <- <- <-]. split; [simpl; auto|]. left. simpl. auto. }
  destruct (chan_closed (requestQ m)); [discriminate|].
  destruct (recvq (requestQ m)) as [|n].
  - intros [= <- <- <- <-]. split; [simpl; auto|]. left. simpl. auto.
  - intros [= <- <- <- <-]. split; [simpl; auto|]. right. simpl.
    split; [reflexivity|]. split; [reflexivity|]. exists n. auto.
Qed.

Lemma pool_inv_NewManager (db : Store) (provider : Provider)
    (cfg : ReplayManagerConfig) (m : Manager) :
  NewManager db provider cfg = Some m -> pool_inv (mkPool m (workers m) [] []).
Proof.
  unfold NewManager. rewrite Init_closed_form. intros [= <-].
  unfold pool_inv, wg_counts_workers, map_follows_queue. simpl.
  repeat split; try (intros; lia); try contradiction; try discriminate.
Qed.

Lemma pool_inv_step (p p' : pool) :
  pool_inv p -> pool_step p p' -> pool_inv p'.
Proof.
  intros (Hwg & Hclosed & [Htrue Htracked] & Hproc) Hstep.
  unfold pool_inv, wg_counts_workers, map_follows_queue in *.
  destruct Hstep as [p m' Hinit | p reqInput reqInput' id err m' Hreplay
                    | p reqInput reqInput' id m' Hreplay | p before after id Hsplit
                    | p k Hk Hopen | p k n Hk Hcl Hn | p before after reqInput Hsplit
                    | p Hopen]; simpl.
  - rewrite Init_closed_form in Hinit. injection Hinit as <-. simpl.
    repeat split; auto. lia.
  - destruct (Replay_shape _ _ _ _ _ _ Hreplay)
      as ((Hw & _ & _) & [(_ & Hq & Hmap) | (Herr & _)]); [|discriminate].
    rewrite Hw, Hq, Hmap. auto.
  - destruct (Replay_shape _ _ _ _ _ _ Hreplay)
      as ((Hw & _ & _) & [(Herr & _) | (_ & Hopen & n & Hrecvq & Hq & _)]);
      [contradiction|].
    rewrite Hw, Hq. simpl. repeat split.
    + lia.
    + discriminate.
    + exact Htrue.
    + intros r Hin. apply in_app_or in Hin as [Hin|[<-|[]]].
      * destruct (Htracked r Hin) as [Hmap|Hmark]; [now left|right; now right].
      * right. now left.
    + intros r [<-|Hin]; apply in_or_app; [right; now left|left; auto].
  - repeat split; auto.
    + intros id' v. rewrite lookup_insert.
      destruct (decide (id = id')); [now intros [= <-]|apply Htrue].
    + intros r Hin. rewrite lookup_insert.
      destruct (decide (id = ReqID r)) as [Heq|Hne]; [now left|].
      destruct (Htracked r Hin) as [Hmap|Hmark]; [now left|right].
      rewrite Hsplit in Hmark. apply in_app_or in Hmark as [Hmark|[Heq|Hmark]].
      * apply in_or_app. now left.
      * contradiction.
      * apply in_or_app. now right.
  - repeat split; auto; [lia|discriminate].
  - repeat split; auto. lia.
  - rewrite Hsplit in Hwg, Hproc. rewrite length_app in *. simpl in *.
    repeat split; auto; [lia|].
    intros r Hin. apply Hproc. apply in_app_or in Hin as [Hin|Hin];
      apply in_or_app; [left|right; right]; exact Hin.
  - repeat split; auto. lia.
Qed.

Lemma reachable_pool_inv (p : pool) : reachable p -> pool_inv p.
Proof.
  induction 1 as [db provider cfg m Hnew | p p' _ IH Hstep].
  - now apply (pool_inv_NewManager db provider cfg).
  - now apply (pool_inv_step p).
Qed.

End PoolInvariants.

Section PoolProperties.

Context `{Collab : Collaborators}.

(** X14: in every state of the pool the wait group equals the number of worker
    goroutines that have not returned: those about to receive, those waiting
    in the receive and those processing a request.  So [m.wg.Done()] always
    finds a positive counter, and [m.wg.Wait()] in [Close] is over exactly
    when no worker is left. *)
Theorem wait_group_counts_live_workers (p : pool) :
  reachable p ->
  wg (mgr p) = (at_range p + recvq (requestQ (mgr p)) + length (processing p))%nat /\
  (at_range p <> 0%nat -> wg (mgr p) <> 0%nat) /\
  (wg (mgr p) = 0%nat <->
   at_range p = 0%nat /\ recvq (requestQ (mgr p)) = 0%nat /\ processing p = []).
Proof.
  intros Hreach. destruct (reachable_pool_inv p Hreach) as (Hwg & _).
  unfold wg_counts_workers in Hwg. split; [exact Hwg|]. split; [lia|]. split.
  - intros Hzero. repeat split; try lia.
    destruct (processing p); [reflexivity|simpl in Hwg; lia].
  - intros (Ha & Hr & Hp). rewrite Hwg, Ha, Hr, Hp. reflexivity.
Qed.

(** X15: once the queue is closed no worker waits on it any more, and no call of
    [Replay] begun from then on returns an id: it returns an error or
    panics. *)
Theorem closed_queue_admits_nothing (p : pool) :
  reachable p ->
  chan_closed (requestQ (mgr p)) = true ->
  recvq (requestQ (mgr p)) = 0%nat /\
  forall reqInput id, (Replay (mgr p) reqInput).1.1 <> Return id None.
Proof.
  intros Hreach Hclosed.
  destruct (reachable_pool_inv p Hreach) as (_ & Hnone & _).
  split; [auto|].
  intros reqInput id Hout.
  destruct (Replay (mgr p) reqInput) as [[out reqInput'] m'] eqn:Hreplay.
  simpl in Hout. subst out.
  destruct (Replay_shape _ _ _ _ _ _ Hreplay) as (_ & [(Herr & _)|(_ & Hopen & _)]);
    congruence.
Qed.


Lemma exits_after_close (k : nat) :
  forall p : pool,
    pool_inv p -> chan_closed (requestQ (mgr p)) = true ->
    processing p = [] -> at_range p = k ->
    exists p', pool_steps p p' /\ wg (mgr p') = 0%nat /\
               requestQ (mgr p') = requestQ (mgr p).
Proof.
  induction k as [|k IH]; intros p Hinv Hclosed Hproc Hk.
  - exists p. split; [constructor|]. split; [|reflexivity].
    destruct Hinv as (Hwg & Hnone & _). unfold wg_counts_workers in Hwg.
    rewrite Hwg, Hk, Hproc, (Hnone Hclosed). reflexivity.
  - assert (wg (mgr p) = S k) as Hwg.
    { destruct Hinv as (Hwg & Hnone & _). unfold wg_counts_workers in Hwg.
      rewrite Hwg, Hk, Hproc, (Hnone Hclosed). simpl. lia. }
    pose proof (step_exit p k k Hk Hclosed Hwg) as Hstep.
    destruct (IH _ (pool_inv_step _ _ Hinv Hstep)) as (p' & Hsteps & Hzero & Hq);
      try (simpl; auto).
    exists p'. split; [|auto]. econstructor; eauto.
Qed.

Lemma processing_ends_after_close (busy : list ReplayWorkerRequest) :
  forall p : pool,
    pool_inv p -> chan_closed (requestQ (mgr p)) = true ->
    processing p = busy ->
    exists p', pool_steps p p' /\ wg (mgr p') = 0%nat /\
               requestQ (mgr p') = requestQ (mgr p).
Proof.
  induction busy as [|r busy IH]; intros p Hinv Hclosed Hproc.
  - now apply (exits_after_close (at_range p)).
  - pose proof (step_processed p [] busy r Hproc) as Hstep.
    destruct (IH _ (pool_inv_step _ _ Hinv Hstep)) as (p' & Hsteps & Hzero & Hq);
      try (simpl; auto).
    exists p'. split; [|auto]. econstructor; eauto.
Qed.

(** X17: after the close of the queue the workers can all leave: from every state
    with the queue closed, moves of the pool lead to a state where the wait
    group is zero, so that [Close] returns; nothing is handed over on the
    way. *)
Theorem close_lets_workers_exit (p : pool) :
  reachable p ->
  chan_closed (requestQ (mgr p)) = true ->
  exists p', pool_steps p p' /\ wg (mgr p') = 0%nat /\
             handed (requestQ (mgr p')) = handed (requestQ (mgr p)).
Proof.
  intros Hreach Hclosed.
  destruct (processing_ends_after_close (processing p) p
              (reachable_pool_inv p Hreach) Hclosed eq_refl)
    as (p' & Hsteps & Hzero & Hq).
  exists p'. rewrite Hq. auto.
Qed.

End PoolProperties.

(** The run of [Scenario] is a run of the pool. *)
Lemma Scenario_sent_reachable : @reachable InMemory.world Scenario.sent.
Proof.
  apply (@reach_step InMemory.world Scenario.waiting).
  2:{ exact (@step_Replay_send InMemory.world Scenario.waiting
               (InMemory.request InMemory.job_x 0 86400)
               Scenario.admitted_request "7" (mgr Scenario.admitted) eq_refl). }
  apply (@reach_step InMemory.world Scenario.fresh);
    [|exact (@step_park InMemory.world Scenario.fresh 0 eq_refl eq_refl)].
  exact (@reach_NewManager InMemory.world InMemory.empty_store [Ok 7%N] (mkConfig 1 5)
           (mgr Scenario.fresh) eq_refl).
Qed.

Lemma Scenario_closing_reachable : @reachable InMemory.world Scenario.closing.
Proof.
  apply (@reach_step InMemory.world Scenario.admitted);
    [|exact (@step_close InMemory.world Scenario.admitted eq_refl)].
  apply (@reach_step InMemory.world Scenario.sent);
    [exact Scenario_sent_reachable|].
  exact (@step_Replay_mark InMemory.world Scenario.sent [] [] 7%N eq_refl).
Qed.

Lemma wait_group_counts_live_workers_witness :
  wg (mgr Scenario.closing) = 1%nat /\
  (wg (mgr Scenario.closing) = 0%nat <->
   at_range Scenario.closing = 0%nat /\
   recvq (requestQ (mgr Scenario.closing)) = 0%nat /\
   processing Scenario.closing = []).
Proof.
  destruct (wait_group_counts_live_workers Scenario.closing Scenario_closing_reachable)
    as (Hwg & _ & Hzero).
  split; [exact Hwg|exact Hzero].
Defined.

Lemma closed_queue_admits_nothing_witness :
  recvq (requestQ (mgr Scenario.closing)) = 0%nat /\
  forall reqInput id,
    (Replay (mgr Scenario.closing) reqInput).1.1 <> Return id None.
Proof.
  apply (closed_queue_admits_nothing Scenario.closing Scenario_closing_reachable).
  reflexivity.
Defined.


Lemma close_lets_workers_exit_witness :
  exists p', pool_steps Scenario.closing p' /\ wg (mgr p') = 0%nat /\
             handed (requestQ (mgr p')) = [Scenario.admitted_request].
Proof.
  apply (close_lets_workers_exit Scenario.closing Scenario_closing_reachable).
  reflexivity.
Defined.

(** ** One worker *)

Section WorkerProperties.

Context {W : Type} (Process : Z -> ReplayWorkerRequest -> W -> option error * W).

Lemma count_event_app (p : worker_event -> bool) (evs evs' : list worker_event) :
  count_event p (evs ++ evs') = (count_event p evs + count_event p evs')%nat.
Proof. unfold count_event. now rewrite List.filter_app, length_app. Qed.

Lemma processed_app (evs evs' : list worker_event) :
  processed (evs ++ evs') = (processed evs ++ processed evs')%list.
Proof. unfold processed. apply flat_map_app. Qed.

Lemma logged_errors_app (evs evs' : list worker_event) :
  logged_errors (evs ++ evs') = (logged_errors evs ++ logged_errors evs')%list.
Proof. unfold logged_errors. apply flat_map_app. Qed.

Lemma serve_trace (timeout : Z) (received : list ReplayWorkerRequest) :
  forall w : W,
    let evs := (serve Process timeout received w).1 in
    processed evs = received /\
    Forall (fun ev => match ev with
                      | EvWithTimeout t | EvProcess t _ => t = timeout
                      | _ => True
                      end) evs /\
    count_event is_context evs = length received /\
    count_event is_cancel evs = (length received + length (logged_errors evs))%nat /\
    count_event is_done evs = 0%nat /\
    (length (logged_errors evs) <= length received)%nat.
Proof.
  induction received as [|reqInput received IH]; intros w; simpl.
  - repeat split; auto.
  - destruct (Process timeout reqInput w) as [err w1].
    specialize (IH w1). destruct (serve Process timeout received w1) as [evs w2].
    simpl in IH. destruct IH as (Hproc & Htime & Hctx & Hcancel & Hdone & Herrs).
    simpl. destruct err as [e|]; simpl.
    + rewrite Hproc. split; [reflexivity|]. split; [repeat constructor; auto|].
      unfold count_event in *. simpl. rewrite Hctx, Hcancel, Hdone.
      repeat split; lia.
    + rewrite Hproc. split; [reflexivity|]. split; [repeat constructor; auto|].
      unfold count_event in *. simpl. rewrite Hctx, Hcancel, Hdone.
      repeat split; lia.
Qed.

(** X18: a worker calls [Process] once for each request it receives, in the order
    of receipt, whether or not earlier calls failed, and every context it
    derives and passes on has the configured [WorkerTimeout]. *)
Theorem worker_processes_all_in_order (config : ReplayManagerConfig)
    (received : list ReplayWorkerRequest) (w : W) :
  let evs := (spawnServiceWorker Process config received w).1 in
  processed evs = received /\
  Forall (fun ev => match ev with
                    | EvWithTimeout t | EvProcess t _ => t = WorkerTimeout config
                    | _ => True
                    end) evs.
Proof.
  unfold spawnServiceWorker.
  pose proof (serve_trace (WorkerTimeout config) received w) as Htrace.
  destruct (serve Process (WorkerTimeout config) received w) as [evs w']. simpl in *.
  destruct Htrace as (Hproc & Htime & _).
  rewrite processed_app, Hproc. simpl. rewrite app_nil_r. split; [reflexivity|].
  apply Forall_app. split; [exact Htime|]. repeat constructor.
Qed.

(** X19: a worker derives one context per request and cancels each: the cancel
    calls number the requests plus the failed ones, whose context is
    cancelled twice.  [m.wg.Done()] runs once, as the last thing the worker
    does. *)
Theorem worker_cancels_every_context (config : ReplayManagerConfig)
    (received : list ReplayWorkerRequest) (w : W) :
  let evs := (spawnServiceWorker Process config received w).1 in
  count_event is_context evs = length received /\
  count_event is_cancel evs = (length received + length (logged_errors evs))%nat /\
  (length (logged_errors evs) <= length received)%nat /\
  count_event is_done evs = 1%nat /\
  exists evs', evs = (evs' ++ [EvDone])%list.
Proof.
  unfold spawnServiceWorker.
  pose proof (serve_trace (WorkerTimeout config) received w) as Htrace.
  destruct (serve Process (WorkerTimeout config) received w) as [evs w']. simpl in *.
  destruct Htrace as (_ & _ & Hctx & Hcancel & Hdone & Herrs).
  rewrite !count_event_app, logged_errors_app, Hctx, Hcancel, Hdone.
  simpl. rewrite app_nil_r. unfold count_event. simpl.
  repeat split; try lia. now exists evs.
Qed.

(** X20: serving a batch of requests followed by another is serving the first,
    then the second from the state the first left: a failure in the first
    batch takes nothing away from the second. *)
Theorem serve_app (timeout : Z) (first second : list ReplayWorkerRequest) (w : W) :
  serve Process timeout (first ++ second) w =
  let '(evs1, w1) := serve Process timeout first w in
  let '(evs2, w2) := serve Process timeout second w1 in
  ((evs1 ++ evs2)%list, w2).
Proof.
  revert w. induction first as [|reqInput first IH]; intros w; simpl.
  - now destruct (serve Process timeout second w).
  - destruct (Process timeout reqInput w) as [err w1]. rewrite IH.
    destruct (serve Process timeout first w1) as [evs1 w2].
    destruct (serve Process timeout second w2) as [evs2 w3].
    f_equal. simpl. f_equal. f_equal. f_equal.
    rewrite <- !app_assoc. reflexivity.
Qed.

End WorkerProperties.

(** * External tables: properties *)

Section ExternalTables.

Import BigQuery.

Context `{Svc : Service}.

(** The loop of [SetLabel] calls over the labels of a specification. *)
Lemma SetLabel_fold (m : TableMetadataToUpdate) (labels : gmap string string) :
  map_fold SetLabel m labels =
  mkUpdate (upd_Description m) (upd_ExpirationTime m) (labels ∪ upd_setLabels m).
Proof.
  apply (map_fold_weak_ind
           (fun r labels =>
              r = mkUpdate (upd_Description m) (upd_ExpirationTime m)
                           (labels ∪ upd_setLabels m))).
  - rewrite (left_id_L ∅ (∪)). now destruct m.
  - intros k v labels' r _ ->. unfold SetLabel. simpl.
    now rewrite insert_union_l.
Qed.

(** X21: the update sent for an existing table carries the description of the
    specification and exactly its labels; its expiration time is the parsed
    timestamp of the specification, or the zero time when the specification
    names none. *)
Theorem update_carries_specification (t : BQTable) (m : TableMetadataToUpdate) :
  update_for t = Good m ->
  upd_Description m = Description (Metadata t) /\
  upd_setLabels m = Labels (Metadata t) /\
  (ExpirationTime (Metadata t) = "" -> upd_ExpirationTime m = time_zero) /\
  (ExpirationTime (Metadata t) <> "" ->
   time_Parse_RFC3339 (ExpirationTime (Metadata t)) = Good (upd_ExpirationTime m)).
Proof.
  unfold update_for.
  destruct (decide (ExpirationTime (Metadata t) = "")) as [Hnone|Hsome].
  - intros [= <-]. rewrite SetLabel_fold. simpl.
    rewrite (right_id_L ∅ (∪)). repeat split; auto. contradiction.
  - destruct (time_Parse_RFC3339 _) as [expiryTime|err]; [|discriminate].
    intros [= <-]. rewrite SetLabel_fold. simpl.
    rewrite (right_id_L ∅ (∪)). repeat split; auto. contradiction.
Qed.

(** X22: when the lookup of the table fails, the [upsert] flag plays no part. *)
Theorem missing_table_ignores_upsert (tableHandle : table_handle) (t : BQTable)
    (s : State) (err : bq_error) :
  Table_Metadata tableHandle s = Bad err ->
  ensureExternalTable tableHandle t true s = ensureExternalTable tableHandle t false s.
Proof. intros Hmeta. unfold ensureExternalTable. now rewrite Hmeta. Qed.

(** X23: a lookup error that is not a [*googleapi.Error] with status 404 (another
    status, a wrapped error, any other error) is returned as it is, and
    nothing is created or updated. *)
Theorem lookup_failure_is_returned (tableHandle : table_handle) (t : BQTable)
    (upsert : bool) (s : State) (err : bq_error) :
  Table_Metadata tableHandle s = Bad err ->
  err <> GoogleApiError 404 ->
  ensureExternalTable tableHandle t upsert s = (Some err, s).
Proof.
  intros Hmeta Hne. unfold ensureExternalTable. rewrite Hmeta.
  destruct err as [code|cause msg|msg]; simpl; try reflexivity.
  unfold StatusNotFound. destruct (Z.eqb_spec code 404) as [->|_]; [contradiction|].
  reflexivity.
Qed.

(** X24: a specification whose expiration timestamp does not parse changes
    nothing, neither when the table is to be created nor when it is to be
    updated: the parse error comes back wrapped with the timestamp. *)
Theorem bad_timestamp_changes_nothing (tableHandle : table_handle) (t : BQTable)
    (upsert : bool) (s : State) (err : bq_error) :
  ExpirationTime (Metadata t) <> "" ->
  time_Parse_RFC3339 (ExpirationTime (Metadata t)) = Bad err ->
  (Table_Metadata tableHandle s = Bad (GoogleApiError 404) /\
   exists meta, bqCreateTableMetaAdapter t = Good meta) \/
  (upsert = true /\ exists meta, Table_Metadata tableHandle s = Good meta) ->
  ensureExternalTable tableHandle t upsert s =
  (Some (Wrapf err ("unable to parse timestamp " ++ ExpirationTime (Metadata t))), s).
Proof.
  intros Hts Hparse [(Hmeta & meta & Hadapt)|(-> & meta & Hmeta)];
    unfold ensureExternalTable, update_for; rewrite Hmeta; simpl.
  - rewrite Hadapt, decide_False, Hparse by exact Hts. reflexivity.
  - rewrite decide_False, Hparse by exact Hts. reflexivity.
Qed.

(** X25: a table that exists: without [upsert] it is left alone, whatever the
    specification says; with [upsert] and a well-formed specification the
    outcome is that of one [Update], made with the version tag that the
    lookup has just returned. *)
Theorem existing_table_updated_only_on_upsert (tableHandle : table_handle)
    (t : BQTable) (s : State) (meta : TableMetadata) :
  Table_Metadata tableHandle s = Good meta ->
  ensureExternalTable tableHandle t false s = (None, s) /\
  (forall m, update_for t = Good m ->
             ensureExternalTable tableHandle t true s =
             Table_Update tableHandle m (ETag meta) s).
Proof.
  intros Hmeta. unfold ensureExternalTable. rewrite Hmeta. simpl.
  split; [reflexivity|].
  intros m ->. now destruct (Table_Update tableHandle m (ETag meta) s) as [[e|] s'].
Qed.

(** X26: an upsert through [createExternalTable] of a table that exists, once
    the dataset is ensured: the outcome is that of one [Update] carrying the
    description of the table specification, its expiration time, and the
    labels of the resource specification; the labels written inside the
    table specification play no part. *)
Theorem upsert_sends_resource_labels (t : BQTable) (labels own : gmap string string)
    (s s' : State) (meta : TableMetadata) (expiryTime : Time) :
  ensureDataset (Project t, Dataset t) (Project t, Dataset t, BQDatasetMetadata_zero)
                false s = (None, s') ->
  Table_Metadata (Project t, Dataset t, Table t) s' = Good meta ->
  (ExpirationTime (Metadata t) = "" /\ expiryTime = time_zero) \/
  (ExpirationTime (Metadata t) <> "" /\
   time_Parse_RFC3339 (ExpirationTime (Metadata t)) = Good expiryTime) ->
  createExternalTable (mkResourceSpec (SpecBQTable (set_Labels t own)) labels) true s =
  Table_Update (Project t, Dataset t, Table t)
               (mkUpdate (Description (Metadata t)) expiryTime labels) (ETag meta) s'.
Proof.
  intros Hdataset Hmeta Hexpiry.
  unfold createExternalTable, ensureExternalTable, update_for. simpl.
  rewrite Hdataset, Hmeta. simpl.
  destruct Hexpiry as [(Hnone & ->)|(Hsome & Hparse)].
  - rewrite decide_True by exact Hnone. rewrite SetLabel_fold. simpl.
    rewrite (right_id_L ∅ (∪)). now destruct (Table_Update _ _ _ _) as [[e|] s''].
  - rewrite decide_False by exact Hsome. rewrite Hparse, SetLabel_fold. simpl.
    rewrite (right_id_L ∅ (∪)). now destruct (Table_Update _ _ _ _) as [[e|] s''].
Qed.

(** X27: [createExternalTable] stops before the table when the specification is
    not a table specification, which changes nothing, and when the dataset
    cannot be ensured, which leaves what [ensureDataset] left. *)
Theorem createExternalTable_stops_early (spec : ResourceSpec) (upsert : bool) (s : State) :
  (Spec spec = SpecOther ->
   createExternalTable spec upsert s =
   (Some (PlainError "failed to read table spec for bigquery"), s)) /\
  (forall bqResource err s',
      Spec spec = SpecBQTable bqResource ->
      ensureDataset (Project bqResource, Dataset bqResource)
                    (Project bqResource, Dataset bqResource, BQDatasetMetadata_zero)
                    false s = (Some err, s') ->
      createExternalTable spec upsert s = (Some err, s')).
Proof.
  unfold createExternalTable. split.
  - now intros ->.
  - intros bqResource err s' -> Hdataset. simpl. now rewrite Hdataset.
Qed.

End ExternalTables.

(** ** External tables against the in-memory service *)

(** A specification with one label and a timestamp the parser knows. *)
Lemma update_carries_specification_witness :
  let m := BigQuery.mkUpdate "click events" (utc 1609459200) (<["team" := "data"]> ∅) in
  BigQuery.upd_Description m = "click events" /\
  BigQuery.upd_setLabels m = <["team" := "data"]> ∅ /\
  @BigQuery.time_Parse_RFC3339 MemBigQuery.service "2021-01-01T00:00:00Z"
    = BigQuery.Good (BigQuery.upd_ExpirationTime m).
Proof.
  destruct (@update_carries_specification MemBigQuery.service
              (MemBigQuery.events_spec "2021-01-01T00:00:00Z" (<["team" := "data"]> ∅))
              (BigQuery.mkUpdate "click events" (utc 1609459200) (<["team" := "data"]> ∅)))
    as (Hdescription & Hlabels & _ & Hexpiry).
  - vm_compute. reflexivity.
  - split; [exact Hdescription|]. split; [exact Hlabels|].
    apply Hexpiry. discriminate.
Defined.

(** No table yet: with or without [upsert] the table is created. *)
Lemma missing_table_ignores_upsert_witness :
  @BigQuery.ensureExternalTable MemBigQuery.service MemBigQuery.events
     (MemBigQuery.events_spec "" ∅) true MemBigQuery.empty =
  @BigQuery.ensureExternalTable MemBigQuery.service MemBigQuery.events
     (MemBigQuery.events_spec "" ∅) false MemBigQuery.empty.
Proof.
  apply (@missing_table_ignores_upsert MemBigQuery.service MemBigQuery.events
           (MemBigQuery.events_spec "" ∅) MemBigQuery.empty
           (BigQuery.GoogleApiError 404)).
  reflexivity.
Defined.

(** An outage answering 503, and one answering with a wrapped 404. *)
Lemma lookup_failure_is_returned_witness :
  let down err := MemBigQuery.mkMemState [] [] (Some err) in
  @BigQuery.ensureExternalTable MemBigQuery.service MemBigQuery.events
     (MemBigQuery.events_spec "" ∅) true (down (BigQuery.GoogleApiError 503))
    = (Some (BigQuery.GoogleApiError 503), down (BigQuery.GoogleApiError 503)) /\
  @BigQuery.ensureExternalTable MemBigQuery.service MemBigQuery.events
     (MemBigQuery.events_spec "" ∅) true
     (down (BigQuery.Wrapf (BigQuery.GoogleApiError 404) "lookup"))
    = (Some (BigQuery.Wrapf (BigQuery.GoogleApiError 404) "lookup"),
       down (BigQuery.Wrapf (BigQuery.GoogleApiError 404) "lookup")).
Proof.
  split.
  - apply (@lookup_failure_is_returned MemBigQuery.service MemBigQuery.events
             (MemBigQuery.events_spec "" ∅) true
             (MemBigQuery.mkMemState [] [] (Some (BigQuery.GoogleApiError 503))));
      [reflexivity|discriminate].
  - apply (@lookup_failure_is_returned MemBigQuery.service MemBigQuery.events
             (MemBigQuery.events_spec "" ∅) true
             (MemBigQuery.mkMemState [] []
                (Some (BigQuery.Wrapf (BigQuery.GoogleApiError 404) "lookup"))));
      [reflexivity|discriminate].
Defined.

(** "tomorrow" is no timestamp: nothing is created, nothing is updated. *)
Lemma bad_timestamp_changes_nothing_witness :
  @BigQuery.ensureExternalTable MemBigQuery.service MemBigQuery.events
     (MemBigQuery.events_spec "tomorrow" ∅) false MemBigQuery.empty
    = (Some (BigQuery.Wrapf (BigQuery.PlainError "parsing time: cannot parse")
                            "unable to parse timestamp tomorrow"),
       MemBigQuery.empty) /\
  @BigQuery.ensureExternalTable MemBigQuery.service MemBigQuery.events
     (MemBigQuery.events_spec "tomorrow" ∅) true MemBigQuery.with_events
    = (Some (BigQuery.Wrapf (BigQuery.PlainError "parsing time: cannot parse")
                            "unable to parse timestamp tomorrow"),
       MemBigQuery.with_events).
Proof.
  split.
  - apply (@bad_timestamp_changes_nothing MemBigQuery.service MemBigQuery.events
             (MemBigQuery.events_spec "tomorrow" ∅) false MemBigQuery.empty
             (BigQuery.PlainError "parsing time: cannot parse"));
      [discriminate|reflexivity|].
    left. split; [reflexivity|]. eexists. reflexivity.
  - apply (@bad_timestamp_changes_nothing MemBigQuery.service MemBigQuery.events
             (MemBigQuery.events_spec "tomorrow" ∅) true MemBigQuery.with_events
             (BigQuery.PlainError "parsing time: cannot parse"));
      [discriminate|reflexivity|].
    right. split; [reflexivity|]. eexists. reflexivity.
Defined.

(** The table "events" exists with tag "v1". *)
Lemma existing_table_updated_only_on_upsert_witness :
  @BigQuery.ensureExternalTable MemBigQuery.service MemBigQuery.events
     (MemBigQuery.events_spec "tomorrow" ∅) false MemBigQuery.with_events
    = (None, MemBigQuery.with_events) /\
  @BigQuery.ensureExternalTable MemBigQuery.service MemBigQuery.events
     (MemBigQuery.events_spec "" ∅) true MemBigQuery.with_events
    = @BigQuery.Table_Update MemBigQuery.service MemBigQuery.events
        (BigQuery.mkUpdate "click events" BigQuery.time_zero ∅) "v1"
        MemBigQuery.with_events.
Proof.
  split.
  - apply (proj1 (@existing_table_updated_only_on_upsert MemBigQuery.service
                    MemBigQuery.events (MemBigQuery.events_spec "tomorrow" ∅)
                    MemBigQuery.with_events
                    (MemBigQuery.mkMemTable "old" BigQuery.time_zero ∅ "v1") eq_refl)).
  - apply (proj2 (@existing_table_updated_only_on_upsert MemBigQuery.service
                    MemBigQuery.events (MemBigQuery.events_spec "" ∅)
                    MemBigQuery.with_events
                    (MemBigQuery.mkMemTable "old" BigQuery.time_zero ∅ "v1") eq_refl)).
    vm_compute. reflexivity.
Defined.

(** The labels of the resource reach the update; the labels written in the
    table specification do not. *)
Lemma upsert_sends_resource_labels_witness :
  @BigQuery.createExternalTable MemBigQuery.service
     (BigQuery.mkResourceSpec
        (BigQuery.SpecBQTable
           (BigQuery.set_Labels (MemBigQuery.events_spec "" ∅) (<["own" := "1"]> ∅)))
        (<["team" := "data"]> ∅))
     true MemBigQuery.with_events
  = @BigQuery.Table_Update MemBigQuery.service MemBigQuery.events
      (BigQuery.mkUpdate "click events" BigQuery.time_zero (<["team" := "data"]> ∅))
      "v1" MemBigQuery.with_events.
Proof.
  apply (@upsert_sends_resource_labels MemBigQuery.service
           (MemBigQuery.events_spec "" ∅) (<["team" := "data"]> ∅) (<["own" := "1"]> ∅)
           MemBigQuery.with_events MemBigQuery.with_events
           (MemBigQuery.mkMemTable "old" BigQuery.time_zero ∅ "v1")
           BigQuery.time_zero);
    [reflexivity|reflexivity|].
  left. split; reflexivity.
Defined.

(** A job specification handed to the table function, and BigQuery down
    while the dataset is ensured. *)
Lemma createExternalTable_stops_early_witness :
  @BigQuery.createExternalTable MemBigQuery.service
     (BigQuery.mkResourceSpec BigQuery.SpecOther ∅) true MemBigQuery.empty
    = (Some (BigQuery.PlainError "failed to read table spec for bigquery"),
       MemBigQuery.empty) /\
  @BigQuery.createExternalTable MemBigQuery.service
     (BigQuery.mkResourceSpec (BigQuery.SpecBQTable (MemBigQuery.events_spec "" ∅)) ∅)
     true (MemBigQuery.mkMemState [] [] (Some (BigQuery.GoogleApiError 503)))
    = (Some (BigQuery.GoogleApiError 503),
       MemBigQuery.mkMemState [] [] (Some (BigQuery.GoogleApiError 503))).
Proof.
  split.
  - apply (proj1 (@createExternalTable_stops_early MemBigQuery.service
                    (BigQuery.mkResourceSpec BigQuery.SpecOther ∅) true
                    MemBigQuery.empty)).
    reflexivity.
  - apply (proj2 (@createExternalTable_stops_early MemBigQuery.service
                    (BigQuery.mkResourceSpec
                       (BigQuery.SpecBQTable (MemBigQuery.events_spec "" ∅)) ∅)
                    true (MemBigQuery.mkMemState [] [] (Some (BigQuery.GoogleApiError 503))))
             (MemBigQuery.events_spec "" ∅)); reflexivity.
Defined.
